(** * NBA Precision Analytics v2: the prediction engine and the daily pick

    A shallow embedding of the two algorithmic files of the repository,

    - the prediction engine ([calculateParetoAdjustment],
      [hasParetoPlayerOut], [calculateMatchupModifier], [calculateEdge],
      [calculatePlayerProjection], [matchProjectionsWithProps],
      [getConfidenceLabel], [oddsToImpliedProbability],
      [probabilityToFairOdds]), and
    - the game analysis service ([generatePlayerProjection],
      [calculateWinProbability], [generateDailyPick], and the two helpers
      [seasonalStatsToPlayers] and [filterRosterInjuries] of
      [getGameAnalysis]),

    with [findBestOdd] of the odds service, which fills the best odd of a
    line; followed by the properties of the specification that concern
    them and by further properties of the code.

    Numbers.  The TypeScript code computes with IEEE-754 doubles.  Here the
    numbers that come in with the data (usage shares, season averages,
    frequencies, market lines, edges of a projection record) are exact
    rationals [Q], and a computed value is a [number]: a rational, one of
    the two infinities, or NaN.  Division follows JavaScript ([x / 0] is an
    infinity, [0 / 0] is NaN) and so do the comparisons (false as soon as
    NaN is involved) and truthiness ([0] and [NaN] are falsy).  What is not
    modelled is the rounding of each double operation, overflow and the
    sign of zero: finite arithmetic is exact.  Where a property compares
    values that the doubles of the code reach only up to their rounding,
    it is stated to a tolerance (1e-6, and half a tenth for a number
    printed with one decimal), not as an equation.  Integer-valued quantities
    that the code builds from integer literals only (confidence scores,
    defence ranks, the size of the usage core) are in [Z]. *)

From Stdlib Require Import QArith Qround Qabs Qfield ZArith List Lia Lqa DecimalString.
From Stdlib Require Import Sorted Permutation Qminmax.
From stdpp Require Import gmap strings.

Open Scope Q_scope.

(** ** JavaScript numbers *)

Module JsNumber.

Inductive number : Type :=
  | Fin (q : Q)
  | PInf
  | NInf
  | NaN.

Definition Qltb (x y : Q) : bool := negb (Qle_bool y x).
Definition Qleb (x y : Q) : bool := Qle_bool x y.
Definition Qis0 (x : Q) : bool := Qeq_bool x 0.

(** [a + b] *)
Definition nadd (a b : number) : number :=
  match a, b with
  | NaN, _ | _, NaN => NaN
  | Fin x, Fin y => Fin (x + y)
  | PInf, NInf | NInf, PInf => NaN
  | PInf, _ | _, PInf => PInf
  | NInf, _ | _, NInf => NInf
  end.

(** [a - b] *)
Definition nsub (a b : number) : number :=
  match a, b with
  | NaN, _ | _, NaN => NaN
  | Fin x, Fin y => Fin (x - y)
  | PInf, PInf | NInf, NInf => NaN
  | PInf, _ | _, NInf => PInf
  | NInf, _ | _, PInf => NInf
  end.

(** The sign of a product or quotient with an infinite operand; a finite
    operand is given by its rational. *)
Definition inf_of_sign (positive : bool) : number :=
  if positive then PInf else NInf.

(** [a * b] *)
Definition nmul (a b : number) : number :=
  match a, b with
  | NaN, _ | _, NaN => NaN
  | Fin x, Fin y => Fin (x * y)
  | Fin x, PInf | PInf, Fin x =>
      if Qis0 x then NaN else inf_of_sign (Qltb 0 x)
  | Fin x, NInf | NInf, Fin x =>
      if Qis0 x then NaN else inf_of_sign (Qltb x 0)
  | PInf, PInf | NInf, NInf => PInf
  | PInf, NInf | NInf, PInf => NInf
  end.

(** [a / b] *)
Definition ndiv (a b : number) : number :=
  match a, b with
  | NaN, _ | _, NaN => NaN
  | Fin x, Fin y =>
      if Qis0 y
      then (if Qis0 x then NaN else inf_of_sign (Qltb 0 x))
      else Fin (x / y)
  | Fin _, (PInf | NInf) => Fin 0
  | PInf, Fin y => inf_of_sign (Qleb 0 y)
  | NInf, Fin y => inf_of_sign (Qltb y 0)
  | (PInf | NInf), (PInf | NInf) => NaN
  end.

(** [a < b] and [a <= b]; [a > b] is [nlt b a] and [a >= b] is [nle b a]. *)
Definition nlt (a b : number) : bool :=
  match a, b with
  | NaN, _ | _, NaN => false
  | Fin x, Fin y => Qltb x y
  | NInf, (Fin _ | PInf) | Fin _, PInf => true
  | _, _ => false
  end.

Definition nle (a b : number) : bool :=
  match a, b with
  | NaN, _ | _, NaN => false
  | Fin x, Fin y => Qleb x y
  | NInf, _ | _, PInf => true
  | _, _ => false
  end.

Definition ngt (a b : number) : bool := nlt b a.
Definition nge (a b : number) : bool := nle b a.

(** Truthiness of a number: [0] and [NaN] are falsy. *)
Definition truthy (a : number) : bool :=
  match a with
  | Fin x => negb (Qis0 x)
  | NaN => false
  | PInf | NInf => true
  end.

(** [Math.round]: the nearest integer, halves towards plus infinity. *)
Definition Math_round (x : Q) : Z := Qfloor (x + 0.5).

(** [Math.ceil] *)
Definition Math_ceil (x : Q) : Z := Qceiling x.

(** The integer [n] that [x.toFixed(digits)] prints for a non-negative [x]:
    the one for which [n / 10^digits] is nearest to [x], the larger one
    when two are as near. *)
Definition fixed_units (digits : nat) (x : Q) : Z :=
  Qfloor (x * inject_Z (10 ^ Z.of_nat digits) + 0.5).

(** [parseFloat(x.toFixed(digits))] on a finite number. *)
Definition Qround_fixed (digits : nat) (x : Q) : Q :=
  let n := fixed_units digits (Qabs x) in
  let r := inject_Z n / inject_Z (10 ^ Z.of_nat digits) in
  if Qltb x 0 then - r else r.

Definition round_fixed (digits : nat) (a : number) : number :=
  match a with
  | Fin x => Fin (Qround_fixed digits x)
  | other => other
  end.

Definition string_of_nonneg (n : Z) : string :=
  NilZero.string_of_uint (N.to_uint (Z.to_N n)).

Fixpoint zeros (k : nat) : string :=
  match k with
  | O => ""
  | S k' => "0" +:+ zeros k'
  end.

(** [s] padded with zeros on the left to [width] characters. *)
Definition pad_left (width : nat) (s : string) : string :=
  zeros (width - String.length s) +:+ s.

(** [x.toFixed(digits)] on a finite number (below 10^21 in absolute value,
    where JavaScript changes to the exponent notation). *)
Definition QtoFixed (digits : nat) (x : Q) : string :=
  let n := fixed_units digits (Qabs x) in
  let p := (10 ^ Z.of_nat digits)%Z in
  let whole := string_of_nonneg (n / p) in
  let frac :=
    match digits with
    | O => ""
    | _ => "." +:+ pad_left digits (string_of_nonneg (n mod p))
    end in
  (if Qltb x 0 then "-" else "") +:+ whole +:+ frac.

Definition toFixed (digits : nat) (a : number) : string :=
  match a with
  | Fin x => QtoFixed digits x
  | PInf => "Infinity"
  | NInf => "-Infinity"
  | NaN => "NaN"
  end.

(** An integer in a template literal. *)
Definition string_of_Z (n : Z) : string :=
  ((if n <? 0 then "-" else "") +:+ string_of_nonneg (Z.abs n))%Z.

(** [parts.join(sep)] *)
Fixpoint join (sep : string) (parts : list string) : string :=
  match parts with
  | [] => ""
  | [s] => s
  | s :: rest => s +:+ sep +:+ join sep rest
  end.

End JsNumber.

Import JsNumber.

(** ** The prediction engine

    Records list the fields that the modelled functions read or write;
    identification and display fields that the engine never reads (team,
    position, dates, descriptions) are left out. *)

Module Injury.

Inductive Status : Type := Out | DayToDay | Questionable | Probable.

Record t : Type := { playerId : string; status : Status }.

End Injury.

(** The player prop lines of the odds service, with the fields that the
    engine reads. *)
Module Odds.

Inductive Market : Type := points | assists | threes | rebounds.

Record BookmakerOdd : Type := {
  bookmaker : string;
  bookmakerId : Z;
  odds : Q;
  lastUpdated : string
}.

Record PlayerPropLine : Type := {
  playerId : string;
  market : Market;
  line : Q;
  bestOverOdd : option BookmakerOdd
}.

(** The callback of the [reduce] of [findBestOdd]:
    [current.odds > best.odds ? current : best] *)
Definition betterOdd (best current : BookmakerOdd) : BookmakerOdd :=
  if Qltb (odds best) (odds current) then current else best.

(** [findBestOdd]: a [reduce] without an initial value starts from the
    first element of the list. *)
Definition findBestOdd (offered : list BookmakerOdd) : option BookmakerOdd :=
  match offered with
  | [] => None
  | first :: rest => Some (fold_left betterOdd rest first)
  end.

End Odds.

Module PredictionEngine.

Record SynergyPlayType : Type := {
  playType : string;
  frequency : Q
}.

Record PlayerSynergyStats : Type := {
  playTypes : list SynergyPlayType
}.

Record DefenseRanks : Type := {
  iso : Z;
  pnr : Z;
  spotup : Z;
  transition : Z;
  postup : Z;
  overall : Z
}.

Record TeamDefenseStats : Type := {
  alias : string;
  defenseRanks : DefenseRanks
}.

Record PlayerData : Type := {
  id : string;
  name : string;
  usage : Q;        (* usage rate, 0-1 *)
  basePoints : Q;   (* average points per game *)
  synergyStats : option PlayerSynergyStats
}.

Record ProjectionResult : Type := {
  playerId : string;
  playerName : string;
  projectedPoints : number;
  confidence : Z;
  reason : string;
  isValueBet : bool;
  edge : number;    (* percentage difference from the market line *)
  vegasLine : option Q;
  vegasOdd : option Q
}.

(** Constants *)
Definition PARETO_CORE_PERCENTAGE : Q := 0.2.
Definition PARETO_EFFICIENCY_PENALTY : Q := 0.15.
Definition SYNERGY_BOOST : Q := 0.10.
Definition SYNERGY_PENALTY : Q := 0.10.
Definition B2B_PENALTY : Q := 0.03.
Definition VALUE_THRESHOLD : Q := 0.10.
Definition ELITE_DEFENSE_RANK : Z := 5.
Definition WEAK_DEFENSE_RANK : Z := 25.

(** [injuries.find(i => i.playerId === pid)] *)
Definition findInjury (injuries : list Injury.t) (pid : string) : option Injury.t :=
  find (fun i => String.eqb (Injury.playerId i) pid) injuries.

(** [[...roster].sort((a, b) => b.usage - a.usage)]: descending usage,
    players of equal usage in their roster order (the sort is stable). *)
Fixpoint insertByUsage (x : PlayerData) (sorted : list PlayerData) : list PlayerData :=
  match sorted with
  | [] => [x]
  | y :: rest =>
      if Qltb (usage x) (usage y) then y :: insertByUsage x rest
      else x :: y :: rest
  end.

Definition sortByUsage (roster : list PlayerData) : list PlayerData :=
  fold_right insertByUsage [] roster.

(** *** calculateParetoAdjustment *)

(** The variables of the loop over the roster. The [Map] of adjustments
    is only ever read with [get], so that the order of its entries is not
    modelled. *)
Record ParetoScan : Type := {
  adjustments : gmap string number;
  activePlayers : list PlayerData;
  totalMissingUsage : Q;
  totalActiveUsage : Q
}.

(** [injury && (injury.status === 'Out' || injury.status === 'Day-To-Day')] *)
Definition isOut (injury : option Injury.t) : bool :=
  match injury with
  | Some i =>
      match Injury.status i with
      | Injury.Out | Injury.DayToDay => true
      | _ => false
      end
  | None => false
  end.

Definition paretoScanStep (injuries : list Injury.t) (paretoCoreIds : gset string)
    (st : ParetoScan) (player : PlayerData) : ParetoScan :=
  let injury := findInjury injuries (id player) in
  if isOut injury then
    {| adjustments := <[id player := Fin 0]> (adjustments st);
       activePlayers := activePlayers st;
       totalMissingUsage :=
         if bool_decide (id player ∈ paretoCoreIds)
         then totalMissingUsage st + usage player
         else totalMissingUsage st;
       totalActiveUsage := totalActiveUsage st |}
  else
    {| adjustments := adjustments st;
       activePlayers := activePlayers st ++ [player];
       totalMissingUsage := totalMissingUsage st;
       totalActiveUsage := totalActiveUsage st + usage player |}.

(** [Math.max(1, Math.ceil(roster.length * PARETO_CORE_PERCENTAGE))]. (In
    doubles the product [n * 0.2] is the integer [n / 5] itself when 5
    divides [n], so that the ceiling is the one of the exact product.) *)
Definition top20Count (roster : list PlayerData) : Z :=
  Z.max 1 (Math_ceil (inject_Z (Z.of_nat (length roster)) * PARETO_CORE_PERCENTAGE)).

(** [paretoCoreIds]: the set of the ids of the first [top20Count] players
    by usage. *)
Definition paretoCore (roster : list PlayerData) : gset string :=
  list_to_set (map id (firstn (Z.to_nat (top20Count roster)) (sortByUsage roster))).

(** The body of the last loop: the multiplier of an active player. *)
Definition newMultiplier (totalMissing totalActive : Q) (player : PlayerData) : number :=
  let share := ndiv (Fin (usage player)) (Fin totalActive) in
  let extraUsage := nmul (Fin totalMissing) share in
  ndiv (nadd (Fin (usage player)) extraUsage) (Fin (usage player)).

Definition initialAdjustments (roster : list PlayerData) : gmap string number :=
  fold_left (fun m p => <[id p := Fin 1]> m) roster ∅.

Definition paretoScan (roster : list PlayerData) (injuries : list Injury.t) : ParetoScan :=
  fold_left (paretoScanStep injuries (paretoCore roster)) roster
    {| adjustments := initialAdjustments roster;
       activePlayers := [];
       totalMissingUsage := 0;
       totalActiveUsage := 0 |}.

Definition calculateParetoAdjustment (roster : list PlayerData)
    (injuries : list Injury.t) : gmap string number :=
  if (length roster =? 0)%nat then initialAdjustments roster
  else
    let st := paretoScan roster injuries in
    if Qltb 0 (totalMissingUsage st) && Qltb 0 (totalActiveUsage st) then
      fold_left
        (fun m p =>
           <[id p := newMultiplier (totalMissingUsage st) (totalActiveUsage st) p]> m)
        (activePlayers st) (adjustments st)
    else adjustments st.

(** *** hasParetoPlayerOut *)

(** [injury && injury.status === 'Out'] *)
Definition isStatusOut (injury : option Injury.t) : bool :=
  match injury with
  | Some i => match Injury.status i with Injury.Out => true | _ => false end
  | None => false
  end.

Definition hasParetoPlayerOut (roster : list PlayerData) (injuries : list Injury.t) : bool :=
  if (length roster =? 0)%nat then false
  else
    let top3 := firstn 3 (sortByUsage roster) in
    existsb (fun player => isStatusOut (findInjury injuries (id player))) top3.

(** *** calculateMatchupModifier *)

Inductive DefenseKey : Type := Kiso | Kpnr | Kspotup | Ktransition | Kpostup.

Definition playTypeToDefenseKey (pt : string) : option DefenseKey :=
  if String.eqb pt "Isolation" then Some Kiso
  else if String.eqb pt "PRBallHandler" then Some Kpnr
  else if String.eqb pt "Spotup" then Some Kspotup
  else if String.eqb pt "Transition" then Some Ktransition
  else if String.eqb pt "Postup" then Some Kpostup
  else None.

Definition rankAt (ranks : DefenseRanks) (key : DefenseKey) : Z :=
  match key with
  | Kiso => iso ranks
  | Kpnr => pnr ranks
  | Kspotup => spotup ranks
  | Ktransition => transition ranks
  | Kpostup => postup ranks
  end.

(** The variables of the loop over the play types. *)
Record MatchupAcc : Type := {
  totalModifier : Q;
  totalFrequency : Q;
  reasons : list string
}.

Definition matchupStep (opponentDefense : TeamDefenseStats)
    (acc : MatchupAcc) (pt : SynergyPlayType) : MatchupAcc :=
  match playTypeToDefenseKey (playType pt) with
  | None => acc
  | Some defenseKey =>
      if Qltb (frequency pt) 0.15 then acc
      else
        let defenseRank := rankAt (defenseRanks opponentDefense) defenseKey in
        let acc' :=
          if (defenseRank <=? ELITE_DEFENSE_RANK)%Z then
            {| totalModifier := totalModifier acc - SYNERGY_PENALTY * frequency pt;
               totalFrequency := totalFrequency acc;
               reasons := reasons acc ++
                 [alias opponentDefense +:+ " has elite " +:+ playType pt +:+
                  " defense (Rank " +:+ string_of_Z defenseRank +:+ ")"] |}
          else if (defenseRank >=? WEAK_DEFENSE_RANK)%Z then
            {| totalModifier := totalModifier acc + SYNERGY_BOOST * frequency pt;
               totalFrequency := totalFrequency acc;
               reasons := reasons acc ++
                 ["Exploiting " +:+ alias opponentDefense +:+ "'s weak " +:+
                  playType pt +:+ " defense (Rank " +:+ string_of_Z defenseRank +:+ ")"] |}
          else acc in
        {| totalModifier := totalModifier acc';
           totalFrequency := totalFrequency acc' + frequency pt;
           reasons := reasons acc' |}
  end.

Record Matchup : Type := { modifier : Q; matchupReason : string }.

Definition calculateMatchupModifier (playerSynergy : option PlayerSynergyStats)
    (opponentDefense : option TeamDefenseStats) : Matchup :=
  match playerSynergy, opponentDefense with
  | Some synergy, Some defense =>
      let acc :=
        fold_left (matchupStep defense) (playTypes synergy)
          {| totalModifier := 0; totalFrequency := 0; reasons := [] |} in
      {| modifier := 1 + totalModifier acc;
         matchupReason := join ". " (reasons acc) |}
  | _, _ => {| modifier := 1.0; matchupReason := "" |}
  end.

(** *** calculateEdge *)

Record EdgeResult : Type := { edgeOf : number; isValue : bool }.

Definition calculateEdge (projection vegasLine : number) : EdgeResult :=
  if nle vegasLine (Fin 0) then {| edgeOf := Fin 0; isValue := false |}
  else
    let edge := ndiv (nsub projection vegasLine) vegasLine in
    {| edgeOf := nmul edge (Fin 100);
       isValue := nge edge (Fin VALUE_THRESHOLD) |}.

(** *** calculatePlayerProjection *)

(** The two variables that steps 2 to 6 update: the running projection and
    the list of reasons. *)
Record Running : Type := { points : number; why : list string }.

(** Step 2: the base projection. *)
Definition baseProjection (player : PlayerData) : Running :=
  {| points := Fin (basePoints player);
     why := ["Base: " +:+ QtoFixed 1 (basePoints player) +:+ " PPG average"] |}.

(** [paretoAdjustments.get(player.id) || 1.0] *)
Definition volumeMultiplierOf (player : PlayerData) (teamRoster : list PlayerData)
    (injuries : list Injury.t) : number :=
  match calculateParetoAdjustment teamRoster injuries !! id player with
  | Some m => if truthy m then m else Fin 1.0
  | None => Fin 1.0
  end.

(** Step 3: the Pareto redistribution. *)
Definition applyRedistribution (volumeMultiplier : number) (r : Running) : Running :=
  if ngt volumeMultiplier (Fin 1.0) then
    {| points := nmul (points r) volumeMultiplier;
       why := why r ++
         ["+" +:+ toFixed 0 (nmul (nsub volumeMultiplier (Fin 1)) (Fin 100)) +:+
          "% volume (teammate absence)"] |}
  else r.

(** The condition of step 4. *)
Definition efficiencyPenaltyApplies (player : PlayerData)
    (teamRoster : list PlayerData) (injuries : list Injury.t) : bool :=
  hasParetoPlayerOut teamRoster injuries &&
  match findInjury injuries (id player) with
  | Some _ => false
  | None => true
  end.

(** Step 4: the Pareto efficiency penalty. *)
Definition applyEfficiencyPenalty (applies : bool) (r : Running) : Running :=
  if applies then
    {| points := nmul (points r) (Fin (1 - PARETO_EFFICIENCY_PENALTY));
       why := why r ++
         ["-" +:+ QtoFixed 0 (PARETO_EFFICIENCY_PENALTY * 100) +:+
          "% efficiency (spacing affected)"] |}
  else r.

(** Step 5: the synergy matchup modifier. *)
Definition applyMatchup (matchup : Matchup) (r : Running) : Running :=
  if negb (Qeq_bool (modifier matchup) 1.0) then
    {| points := nmul (points r) (Fin (modifier matchup));
       why := if String.eqb (matchupReason matchup) "" then why r
              else why r ++ [matchupReason matchup] |}
  else r.

(** Step 6: the back-to-back penalty. *)
Definition applyB2B (isB2B : bool) (r : Running) : Running :=
  if isB2B then
    {| points := nmul (points r) (Fin (1 - B2B_PENALTY));
       why := why r ++ ["Back-to-back game fatigue"] |}
  else r.

(** The running projection after step 3 and after step 4. *)
Definition afterRedistribution (player : PlayerData)
    (teamRoster : list PlayerData) (injuries : list Injury.t) : Running :=
  applyRedistribution (volumeMultiplierOf player teamRoster injuries)
    (baseProjection player).

Definition afterEfficiencyPenalty (player : PlayerData)
    (teamRoster : list PlayerData) (injuries : list Injury.t) : Running :=
  applyEfficiencyPenalty (efficiencyPenaltyApplies player teamRoster injuries)
    (afterRedistribution player teamRoster injuries).

(** Steps 2 to 6 in their order. *)
Definition runningProjection (player : PlayerData)
    (opponentDefense : option TeamDefenseStats) (injuries : list Injury.t)
    (teamRoster : list PlayerData) (isB2B : bool) : Running :=
  let r := afterEfficiencyPenalty player teamRoster injuries in
  let r := applyMatchup (calculateMatchupModifier (synergyStats player) opponentDefense) r in
  applyB2B isB2B r.

(** [playerInjury && playerInjury.status === 'Day-To-Day'] *)
Definition isDayToDay (injury : option Injury.t) : bool :=
  match injury with
  | Some i => match Injury.status i with Injury.DayToDay => true | _ => false end
  | None => false
  end.

(** Step 7: the confidence score. *)
Definition confidenceScore (isB2B : bool) (volumeMultiplier : number)
    (playerInjury : option Injury.t) : Z :=
  let confidence := 85%Z in
  let confidence := if isB2B then (confidence - 10)%Z else confidence in
  let confidence :=
    if ngt volumeMultiplier (Fin 1.2) then (confidence - 15)%Z else confidence in
  let confidence :=
    if isDayToDay playerInjury then (confidence - 20)%Z else confidence in
  Z.max 30 (Z.min 95 confidence).

(** Step 8: [vegasLine ? calculateEdge(projectedPoints, vegasLine)
    : { edge: 0, isValue: false }] *)
Definition edgeAgainst (projectedPoints : number) (vegasLine : option Q) : EdgeResult :=
  match vegasLine with
  | Some line =>
      if truthy (Fin line) then calculateEdge projectedPoints (Fin line)
      else {| edgeOf := Fin 0; isValue := false |}
  | None => {| edgeOf := Fin 0; isValue := false |}
  end.

Definition calculatePlayerProjection (player : PlayerData)
    (opponentDefense : option TeamDefenseStats) (injuries : list Injury.t)
    (teamRoster : list PlayerData) (isB2B : bool) (vegasLine : option Q)
    : ProjectionResult :=
  let playerInjury := findInjury injuries (id player) in
  if isStatusOut playerInjury then
    {| playerId := id player;
       playerName := name player;
       projectedPoints := Fin 0;
       confidence := 100;
       reason := "Player is OUT (inactive)";
       isValueBet := false;
       edge := Fin 0;
       vegasLine := vegasLine;
       vegasOdd := None |}
  else
    let r := runningProjection player opponentDefense injuries teamRoster isB2B in
    let volumeMultiplier := volumeMultiplierOf player teamRoster injuries in
    let edgeResult := edgeAgainst (points r) vegasLine in
    {| playerId := id player;
       playerName := name player;
       projectedPoints := round_fixed 1 (points r);
       confidence := confidenceScore isB2B volumeMultiplier playerInjury;
       reason := join ". " (why r);
       isValueBet := isValue edgeResult;
       edge := round_fixed 1 (edgeOf edgeResult);
       vegasLine := vegasLine;
       vegasOdd := None |}.

(** *** matchProjectionsWithProps *)

(** [props.find(p => p.playerId === projection.playerId && p.market === 'points')] *)
Definition findPointsProp (props : list Odds.PlayerPropLine) (pid : string)
    : option Odds.PlayerPropLine :=
  find
    (fun p =>
       String.eqb (Odds.playerId p) pid &&
       match Odds.market p with Odds.points => true | _ => false end)
    props.

Definition matchProjection (props : list Odds.PlayerPropLine)
    (projection : ProjectionResult) : ProjectionResult :=
  match findPointsProp props (playerId projection) with
  | None => projection
  | Some prop =>
      let edgeResult :=
        calculateEdge (projectedPoints projection) (Fin (Odds.line prop)) in
      {| playerId := playerId projection;
         playerName := playerName projection;
         projectedPoints := projectedPoints projection;
         confidence := confidence projection;
         reason := reason projection;
         isValueBet := isValue edgeResult;
         edge := round_fixed 1 (edgeOf edgeResult);
         vegasLine := Some (Odds.line prop);
         vegasOdd := Odds.odds <$> Odds.bestOverOdd prop |}
  end.

Definition matchProjectionsWithProps (projections : list ProjectionResult)
    (props : list Odds.PlayerPropLine) : list ProjectionResult :=
  map (matchProjection props) projections.

(** *** getConfidenceLabel *)

Inductive ConfidenceLabel : Type := HIGH | MEDIUM | LOW.

Definition getConfidenceLabel (score : Z) : ConfidenceLabel :=
  if (score >=? 75)%Z then HIGH
  else if (score >=? 50)%Z then MEDIUM
  else LOW.

(** *** oddsToImpliedProbability, probabilityToFairOdds *)

Definition oddsToImpliedProbability (decimalOdds : number) : number :=
  nmul (ndiv (Fin 1) decimalOdds) (Fin 100).

Definition probabilityToFairOdds (probability : number) : number :=
  ndiv (Fin 100) probability.

End PredictionEngine.

(** ** The game analysis service: the daily pick *)

Module DailyPick.

Inductive PickType : Type := prop_over | prop_under | moneyline_value.

Record t : Type := {
  type : PickType;
  title : string;
  reasoning : string;
  confidenceScore : Z;      (* 1-10 *)
  edgePercentage : Q;
  bookmakerOdd : Q;
  projection : option Q;
  line : option Q;
  playerName : option string;
  teamAlias : option string
}.

End DailyPick.

(** A player of a team roster. [tpg] is not a declared field of the
    source type: a record may carry it or not. *)
Module TeamPlayer.

Record t : Type := {
  id : string;
  name : string;
  position : string;
  ppg : Q;
  apg : Q;
  rpg : Q;
  tpg : option Q
}.

End TeamPlayer.

Module GameAnalysis.

Record PlayerProjection : Type := {
  playerId : string;
  playerName : string;
  position : string;
  (* points *)
  projection : Q;
  line : Q;
  edge : Q;
  (* assists *)
  assistsProjection : Q;
  assistsLine : Q;
  assistsEdge : Q;
  (* rebounds *)
  reboundsProjection : Q;
  reboundsLine : Q;
  reboundsEdge : Q;
  (* three pointers *)
  threesProjection : Q;
  threesLine : Q;
  threesEdge : Q;
  (* meta *)
  isValueBet : bool;
  confidence : Z
}.

(** [{ ...p, teamAlias }] *)
Record TeamPlayerProjection : Type := {
  player : PlayerProjection;
  teamAlias : string
}.

Inductive Stat : Type := points | assists | rebounds.
Inductive Direction : Type := over | under.

(** The local variable [bestProp]. *)
Record BestProp : Type := {
  bestPlayer : TeamPlayerProjection;
  bestStat : Stat;
  bestEdge : Q;
  bestProjection : Q;
  bestLine : Q;
  bestType : Direction
}.

Definition PROP_EDGE_THRESHOLD : Q := 12.
Definition MONEYLINE_EDGE_THRESHOLD : Q := 8.

(** One of the three checks of the loop body: the statistic [stat] of
    [p], with its edge, projection and line. *)
Definition checkStat (p : TeamPlayerProjection) (stat : Stat)
    (statEdge statProjection statLine : Q) (bestProp : option BestProp)
    : option BestProp :=
  if Qleb PROP_EDGE_THRESHOLD (Qabs statEdge) then
    let isOver := Qltb 0 statEdge in
    let better :=
      match bestProp with
      | None => true
      | Some best => Qltb (Qabs (bestEdge best)) (Qabs statEdge)
      end in
    if better then
      Some {| bestPlayer := p;
              bestStat := stat;
              bestEdge := statEdge;
              bestProjection := statProjection;
              bestLine := statLine;
              bestType := if isOver then over else under |}
    else bestProp
  else bestProp.

(** The body of the loop over [allProjections]. *)
Definition scanPlayer (bestProp : option BestProp) (p : TeamPlayerProjection)
    : option BestProp :=
  let q := player p in
  let bestProp := checkStat p points (edge q) (projection q) (line q) bestProp in
  let bestProp :=
    checkStat p assists (assistsEdge q) (assistsProjection q) (assistsLine q) bestProp in
  checkStat p rebounds (reboundsEdge q) (reboundsProjection q) (reboundsLine q) bestProp.

Definition allProjections (homeProjections awayProjections : list PlayerProjection)
    (homeAlias awayAlias : string) : list TeamPlayerProjection :=
  map (fun p => {| player := p; teamAlias := homeAlias |}) homeProjections ++
  map (fun p => {| player := p; teamAlias := awayAlias |}) awayProjections.

Definition findBestProp (all : list TeamPlayerProjection) : option BestProp :=
  fold_left scanPlayer all None.

Definition statLabel (stat : Stat) : string :=
  match stat with
  | points => "PTS"
  | assists => "AST"
  | rebounds => "REB"
  end.

(** Priority 1: the pick returned for the best prop. *)
Definition propPick (bestProp : BestProp) : DailyPick.t :=
  let typeLabel := match bestType bestProp with over => "OVER" | under => "UNDER" end in
  let bookmakerOdd := 1.90 in
  let absEdge := Qabs (bestEdge bestProp) in
  let confidenceScore := Z.min 10 (Math_round (5 + absEdge / 5)) in
  {| DailyPick.type :=
       match bestType bestProp with
       | over => DailyPick.prop_over
       | under => DailyPick.prop_under
       end;
     DailyPick.title :=
       playerName (player (bestPlayer bestProp)) +:+ " " +:+ typeLabel +:+ " " +:+
       QtoFixed 1 (bestLine bestProp) +:+ " " +:+ statLabel (bestStat bestProp);
     DailyPick.reasoning :=
       "Média da temporada (" +:+ QtoFixed 1 (bestProjection bestProp) +:+ ") " +:+
       match bestType bestProp with
       | over => "supera"
       | under => "está abaixo de"
       end +:+
       " a linha Vegas (" +:+ QtoFixed 1 (bestLine bestProp) +:+ ") com " +:+
       QtoFixed 1 absEdge +:+ "% de edge.";
     DailyPick.confidenceScore := confidenceScore;
     DailyPick.edgePercentage := Qround_fixed 1 absEdge;
     DailyPick.bookmakerOdd := bookmakerOdd;
     DailyPick.projection := Some (bestProjection bestProp);
     DailyPick.line := Some (bestLine bestProp);
     DailyPick.playerName := Some (playerName (player (bestPlayer bestProp)));
     DailyPick.teamAlias := Some (teamAlias (bestPlayer bestProp)) |}.

(** Priority 2: the market-implied probabilities assumed for the two
    sides, and the edges of the model over them. *)
Definition homeImpliedProb (homeWinProb : Q) : Q :=
  if Qleb 50 homeWinProb then 58 else 45.
Definition awayImpliedProb (homeWinProb : Q) : Q :=
  100 - homeImpliedProb homeWinProb.
Definition homeEdge (homeWinProb : Q) : Q :=
  homeWinProb - homeImpliedProb homeWinProb.
Definition awayEdge (homeWinProb : Q) : Q :=
  (100 - homeWinProb) - awayImpliedProb homeWinProb.

(** The pick returned for one side.  [impliedProb] is one of the integers
    58, 45, 42 and 55, which the template literal prints without decimals. *)
Definition moneylinePick (alias : string) (winProb impliedProb sideEdge bookmakerOdd : Q)
    : DailyPick.t :=
  let confidenceScore := Z.min 10 (Math_round (5 + sideEdge / 4)) in
  {| DailyPick.type := DailyPick.moneyline_value;
     DailyPick.title := alias +:+ " Moneyline";
     DailyPick.reasoning :=
       "Modelo projeta " +:+ QtoFixed 0 winProb +:+ "% de vitória vs " +:+
       QtoFixed 0 impliedProb +:+ "% implícito pelo mercado. Edge de " +:+
       QtoFixed 1 sideEdge +:+ "%.";
     DailyPick.confidenceScore := confidenceScore;
     DailyPick.edgePercentage := Qround_fixed 1 sideEdge;
     DailyPick.bookmakerOdd := bookmakerOdd;
     DailyPick.projection := None;
     DailyPick.line := None;
     DailyPick.playerName := None;
     DailyPick.teamAlias := Some alias |}.

Definition generateDailyPick (homeProjections awayProjections : list PlayerProjection)
    (homeAlias awayAlias : string) (homeWinProb : Q) : option DailyPick.t :=
  match findBestProp (allProjections homeProjections awayProjections homeAlias awayAlias) with
  | Some bestProp => Some (propPick bestProp)
  | None =>
      if Qleb MONEYLINE_EDGE_THRESHOLD (homeEdge homeWinProb) then
        Some (moneylinePick homeAlias homeWinProb (homeImpliedProb homeWinProb)
                (homeEdge homeWinProb)
                (if Qleb 60 homeWinProb then 1.65 else 1.85))
      else if Qleb MONEYLINE_EDGE_THRESHOLD (awayEdge homeWinProb) then
        Some (moneylinePick awayAlias (100 - homeWinProb) (awayImpliedProb homeWinProb)
                (awayEdge homeWinProb)
                (if Qleb 60 (100 - homeWinProb) then 1.65 else 2.10))
      else None
  end.

(** *** generatePlayerProjection *)

(** The UTF-16 code units of a string, which is held here as its UTF-8
    bytes: [name.split('').map(char => char.charCodeAt(0))]. A byte that
    does not start a well-formed sequence counts as a unit of its own. *)
Fixpoint charCodes (s : string) : list N :=
  match s with
  | EmptyString => []
  | String c1 rest =>
      let b1 := Ascii.N_of_ascii c1 in
      if (b1 <? 128)%N then b1 :: charCodes rest
      else
        match rest with
        | String c2 rest2 =>
            let b2 := N.land (Ascii.N_of_ascii c2) 63 in
            if (b1 <? 224)%N then
              (N.land b1 31 * 64 + b2)%N :: charCodes rest2
            else
              match rest2 with
              | String c3 rest3 =>
                  let b3 := N.land (Ascii.N_of_ascii c3) 63 in
                  if (b1 <? 240)%N then
                    (N.land b1 15 * 4096 + b2 * 64 + b3)%N :: charCodes rest3
                  else
                    match rest3 with
                    | String c4 rest4 =>
                        let b4 := N.land (Ascii.N_of_ascii c4) 63 in
                        let point :=
                          (N.land b1 7 * 262144 + b2 * 4096 + b3 * 64 + b4)%N in
                        let offset := (point - 65536)%N in
                        (55296 + offset / 1024)%N ::
                        (56320 + offset mod 1024)%N :: charCodes rest4
                    | EmptyString => b1 :: charCodes rest
                    end
              | EmptyString => b1 :: charCodes rest
              end
        | EmptyString => [b1]
        end
  end.

(** [name.split('').reduce((acc, char) => acc + char.charCodeAt(0), 0)] *)
Definition nameHash (name : string) : N :=
  fold_left (fun acc code => (acc + code)%N) (charCodes name) 0%N.

(** [((nameHash % 30) - 15) / 100] *)
Definition varianceFactor (name : string) : Q :=
  (inject_Z (Z.of_N (nameHash name mod 30)) - 15) / 100.

(** [((playerIndex % 3) - 1) * 0.5]; the remainder has the sign of the
    index. *)
Definition lineOffset (playerIndex : Z) : Q :=
  (inject_Z (Z.rem playerIndex 3) - 1) * 0.5.

(** [line > 0 ? ((projection - line) / line) * 100 : 0] *)
Definition statEdge (statProjection statLine : Q) : Q :=
  if Qltb 0 statLine then (statProjection - statLine) / statLine * 100 else 0.

Definition generatePlayerProjection (p : TeamPlayer.t) (playerIndex : Z)
    : PlayerProjection :=
  let variance := varianceFactor (TeamPlayer.name p) in
  let offset := lineOffset playerIndex in
  (* points *)
  let pointsProjection := TeamPlayer.ppg p * (1 + variance) in
  let pointsLine := TeamPlayer.ppg p + offset in
  let pointsEdge := statEdge pointsProjection pointsLine in
  (* assists *)
  let assistsProjection := TeamPlayer.apg p * (1 + variance * 0.8) in
  let assistsLine := TeamPlayer.apg p + offset * 0.3 in
  let assistsEdge := statEdge assistsProjection assistsLine in
  (* rebounds *)
  let reboundsProjection := TeamPlayer.rpg p * (1 + variance * 0.7) in
  let reboundsLine := TeamPlayer.rpg p + offset * 0.4 in
  let reboundsEdge := statEdge reboundsProjection reboundsLine in
  (* three pointers *)
  let tpg := default (TeamPlayer.ppg p * 0.08) (TeamPlayer.tpg p) in
  let threesProjection := tpg * (1 + variance) in
  let threesLine := tpg + offset * 0.2 in
  let threesEdge := statEdge threesProjection threesLine in
  let isValueBet :=
    Qleb 10 (Qabs pointsEdge) || Qleb 10 (Qabs assistsEdge) ||
    Qleb 10 (Qabs reboundsEdge) || Qleb 10 (Qabs threesEdge) in
  let confidence := Qmin 95 (70 + TeamPlayer.ppg p / 30 * 25) in
  {| playerId := TeamPlayer.id p;
     playerName := TeamPlayer.name p;
     position := TeamPlayer.position p;
     projection := Qround_fixed 1 pointsProjection;
     line := Qround_fixed 1 pointsLine;
     edge := Qround_fixed 1 pointsEdge;
     assistsProjection := Qround_fixed 1 assistsProjection;
     assistsLine := Qround_fixed 1 assistsLine;
     assistsEdge := Qround_fixed 1 assistsEdge;
     reboundsProjection := Qround_fixed 1 reboundsProjection;
     reboundsLine := Qround_fixed 1 reboundsLine;
     reboundsEdge := Qround_fixed 1 reboundsEdge;
     threesProjection := Qround_fixed 1 threesProjection;
     threesLine := Qround_fixed 1 threesLine;
     threesEdge := Qround_fixed 1 threesEdge;
     isValueBet := isValueBet;
     confidence := Math_round confidence |}.

(** *** calculateWinProbability *)

Record WinProbability : Type := {
  homeWinProb : Q;
  homeAdvantage : Q;
  starPowerDiff : Q
}.

(** [players.slice(0, 3).reduce((sum, p) => sum + (p?.ppg ?? 0), 0)] *)
Definition top3Ppg (players : list TeamPlayer.t) : Q :=
  fold_left (fun sum p => sum + TeamPlayer.ppg p) (firstn 3 players) 0.

(** The operands are finite, so that the [Number.isFinite] tests of the
    returned record hold and their fallback values are never taken. *)
Definition calculateWinProbability (homeTeamPlayers awayTeamPlayers : list TeamPlayer.t)
    : WinProbability :=
  let homeTop3Ppg := top3Ppg homeTeamPlayers in
  let awayTop3Ppg := top3Ppg awayTeamPlayers in
  let homeAdvantage := 0.04 in
  let totalPpg := homeTop3Ppg + awayTop3Ppg in
  let rawHomeProbability :=
    if Qltb 0 totalPpg then homeTop3Ppg / totalPpg else 0.5 in
  let homeWinProb := rawHomeProbability + homeAdvantage in
  let homeWinProb := Qmax 0.20 (Qmin 0.80 homeWinProb) in
  {| homeWinProb := homeWinProb * 100;
     homeAdvantage := homeAdvantage * 100;
     starPowerDiff := homeTop3Ppg - awayTop3Ppg |}.

End GameAnalysis.

(** ** The game analysis service: the rosters of a game

    The helpers of [getGameAnalysis] that build the list of players of a
    team; the injuries of the report, which they close over, are their
    first argument here. *)

Module GameRoster.

(** An injury of the report with the team it belongs to. *)
Record InjuryRow : Type := {
  teamId : string;
  report : Injury.t
}.

Record PlayerSeasonalStats : Type := {
  name : string;
  ppg : Q;
  apg : Q;
  rpg : Q;
  tpg : Q;
  mpg : Q
}.

Record TeamRoster : Type := {
  rosterTeamId : string;
  teamName : string;
  alias : string;
  players : list TeamPlayer.t
}.

(** [injuries.filter(i => i.teamId === teamId)] *)
Definition teamInjuries (injuries : list InjuryRow) (team : string) : list Injury.t :=
  map report (List.filter (fun i => String.eqb (teamId i) team) injuries).

(** [players.sort((a, b) => b.ppg - a.ppg)]: descending points per game,
    players of equal average in their order (the sort is stable). *)
Fixpoint insertByPpg (x : TeamPlayer.t) (sorted : list TeamPlayer.t) : list TeamPlayer.t :=
  match sorted with
  | [] => [x]
  | y :: rest =>
      if Qltb (TeamPlayer.ppg x) (TeamPlayer.ppg y) then y :: insertByPpg x rest
      else x :: y :: rest
  end.

Definition sortByPpg (players : list TeamPlayer.t) : list TeamPlayer.t :=
  fold_right insertByPpg [] players.

(** The name shown for a player, with the warning sign of a day-to-day
    player. *)
Definition shownName (injury : option Injury.t) (name : string) : string :=
  if PredictionEngine.isDayToDay injury then name +:+ " ⚠️" else name.

(** The player that [seasonalStatsToPlayers] pushes for an entry of the
    statistics map; the statistics give no position. *)
Definition seasonalPlayer (injury : option Injury.t)
    (entry : string * PlayerSeasonalStats) : TeamPlayer.t :=
  {| TeamPlayer.id := fst entry;
     TeamPlayer.name := shownName injury (name (snd entry));
     TeamPlayer.position := "N/A";
     TeamPlayer.ppg := ppg (snd entry);
     TeamPlayer.apg := apg (snd entry);
     TeamPlayer.rpg := rpg (snd entry);
     TeamPlayer.tpg := None |}.

(** The body of the loop of [seasonalStatsToPlayers] over the entries
    of the statistics map. *)
Definition seasonalStep (injuries : list Injury.t) (players : list TeamPlayer.t)
    (entry : string * PlayerSeasonalStats) : list TeamPlayer.t :=
  let injury := PredictionEngine.findInjury injuries (fst entry) in
  if PredictionEngine.isStatusOut injury then players
  else players ++ [seasonalPlayer injury entry].

(** [seasonalStatsToPlayers]; the statistics map is the list of its
    entries in their order. *)
Definition seasonalStatsToPlayers (injuries : list InjuryRow)
    (statsMap : list (string * PlayerSeasonalStats)) (team : string)
    : list TeamPlayer.t :=
  sortByPpg (fold_left (seasonalStep (teamInjuries injuries team)) statsMap []).

(** [filterRosterInjuries] *)
Definition filterRosterInjuries (injuries : list InjuryRow)
    (roster : option TeamRoster) (team : string) : list TeamPlayer.t :=
  match roster with
  | None => []
  | Some r =>
      if (length (players r) =? 0)%nat then []
      else
        let reports := teamInjuries injuries team in
        map
          (fun p =>
             let injury := PredictionEngine.findInjury reports (TeamPlayer.id p) in
             {| TeamPlayer.id := TeamPlayer.id p;
                TeamPlayer.name := shownName injury (TeamPlayer.name p);
                TeamPlayer.position := TeamPlayer.position p;
                TeamPlayer.ppg := TeamPlayer.ppg p;
                TeamPlayer.apg := TeamPlayer.apg p;
                TeamPlayer.rpg := TeamPlayer.rpg p;
                TeamPlayer.tpg := TeamPlayer.tpg p |})
          (List.filter
             (fun p =>
                negb (PredictionEngine.isStatusOut
                        (PredictionEngine.findInjury reports (TeamPlayer.id p))))
             (players r))
  end.

End GameRoster.

Import PredictionEngine.

(** ** The properties, in the words of the specification

    The definitions of this module are written from the specification, to
    be compared with the functions above. *)

Module Spec.

(** The availability status of a player: the status of the injury report
    that the engine finds for the player, if there is one. *)
Definition statusOf (injuries : list Injury.t) (pid : string) : option Injury.Status :=
  Injury.status <$> findInjury injuries pid.

(** Unavailable for the redistribution: [Out] or [Day-To-Day]. *)
Definition unavailable (injuries : list Injury.t) (p : PlayerData) : bool :=
  match statusOf injuries (id p) with
  | Some Injury.Out | Some Injury.DayToDay => true
  | _ => false
  end.

Definition active (injuries : list Injury.t) (p : PlayerData) : bool :=
  negb (unavailable injuries p).

(** The player of highest usage share of a list, with the other players
    in their order; of several players of the highest usage, the one that
    is listed first. *)
Fixpoint extractTop (players : list PlayerData)
    : option (PlayerData * list PlayerData) :=
  match players with
  | [] => None
  | x :: rest =>
      match extractTop rest with
      | None => Some (x, [])
      | Some (top, others) =>
          if Qltb (usage x) (usage top) then Some (top, x :: others)
          else Some (x, rest)
      end
  end.

(** The first [k] players by descending usage share: the player of highest
    usage, then the first [k - 1] of the others. *)
Fixpoint topPlayers (k : nat) (players : list PlayerData) : list PlayerData :=
  match k with
  | O => []
  | S k' =>
      match extractTop players with
      | None => []
      | Some (top, others) => top :: topPlayers k' others
      end
  end.

(** The size of the usage core: [max(1, ceil(rosterSize * 0.2))]. *)
Definition coreSize (rosterSize : nat) : nat :=
  Z.to_nat (Z.max 1 (Qceiling (inject_Z (Z.of_nat rosterSize) * 0.2))).

(** The usage core: the first [max(1, ceil(rosterSize * 0.2))] players by
    descending usage share. *)
Definition usageCore (roster : list PlayerData) : list PlayerData :=
  topPlayers (coreSize (length roster)) roster.

(** In the usage core: a player of the core has the id of the player. *)
Definition inCore (roster : list PlayerData) (p : PlayerData) : bool :=
  existsb (fun c => String.eqb (id c) (id p)) (usageCore roster).

Definition Qsum (l : list Q) : Q := fold_right Qplus 0 l.

Definition nsum (l : list number) : number := fold_right nadd (Fin 0) l.

Definition totalUsage (roster : list PlayerData) : Q :=
  Qsum (map usage roster).

Definition activeUsage (roster : list PlayerData) (injuries : list Injury.t) : Q :=
  Qsum (map usage (List.filter (active injuries) roster)).

Definition missingCoreUsage (roster : list PlayerData) (injuries : list Injury.t) : Q :=
  Qsum (map usage
    (List.filter (fun p => unavailable injuries p && inCore roster p) roster)).

Definition nonCoreUnavailableUsage (roster : list PlayerData)
    (injuries : list Injury.t) : Q :=
  Qsum (map usage
    (List.filter (fun p => unavailable injuries p && negb (inCore roster p)) roster)).

(** The multiplier that a mapping gives a player; a missing entry reads as
    [undefined], which is NaN in arithmetic. *)
Definition multiplierOf (m : gmap string number) (p : PlayerData) : number :=
  default NaN (m !! id p).

(** The sum over the active players of usage times multiplier. *)
Definition redistributedUsage (roster : list PlayerData) (injuries : list Injury.t) : number :=
  nsum (map
    (fun p => nmul (Fin (usage p))
                (multiplierOf (calculateParetoAdjustment roster injuries) p))
    (List.filter (active injuries) roster)).

(** Equal to a tolerance: both finite and no further apart than [tol]. *)
Definition approx (tol : Q) (a b : number) : Prop :=
  match a, b with
  | Fin x, Fin y => Qabs (x - y) <= tol
  | _, _ => False
  end.

(** Finite: neither NaN nor an infinity. *)
Definition finite (a : number) : Prop :=
  match a with
  | Fin _ => True
  | _ => False
  end.

(** The value-bet flag as the specification words it: the edge, in per
    cent, is at least 10 in absolute value. *)
Definition valueFlagAbsolute (edgePercent : Q) : bool :=
  Qleb 10 (Qabs edgePercent).

(** The ranks of a defence profile by play type, under the names that the
    synergy profiles give the play types. *)
Definition ranksByPlayType (defense : TeamDefenseStats) : list (string * Z) :=
  [ ("Isolation", iso (defenseRanks defense));
    ("PRBallHandler", pnr (defenseRanks defense));
    ("Spotup", spotup (defenseRanks defense));
    ("Transition", transition (defenseRanks defense));
    ("Postup", postup (defenseRanks defense)) ].

(** The opponent's rank for a play type: the five play types of the
    defence profile have one. *)
Definition opponentRank (defense : TeamDefenseStats) (pt : string) : option Z :=
  snd <$> find (fun entry => String.eqb pt (fst entry)) (ranksByPlayType defense).

(** The contribution of one play type to the matchup modifier. *)
Definition contribution (defense : TeamDefenseStats) (pt : SynergyPlayType) : Q :=
  if Qleb 0.15 (frequency pt) then
    match opponentRank defense (playType pt) with
    | Some rank =>
        if (25 <=? rank)%Z then 0.10 * frequency pt
        else if (rank <=? 5)%Z then - (0.10 * frequency pt)
        else 0
    | None => 0
    end
  else 0.



End Spec.

(** ** The daily pick, in the words of the specification *)

Module PickSpec.

Import GameAnalysis.

(** What the scan looks at for one player and one of the statistics that
    the loop checks: the edge, the projection and the line of the
    statistic, over when the edge is positive and under otherwise. *)
Definition candidate (p : TeamPlayerProjection) (stat : Stat) : BestProp :=
  let q := player p in
  let statEdge :=
    match stat with
    | points => edge q
    | assists => assistsEdge q
    | rebounds => reboundsEdge q
    end in
  {| bestPlayer := p;
     bestStat := stat;
     bestEdge := statEdge;
     bestProjection :=
       match stat with
       | points => projection q
       | assists => assistsProjection q
       | rebounds => reboundsProjection q
       end;
     bestLine :=
       match stat with
       | points => line q
       | assists => assistsLine q
       | rebounds => reboundsLine q
       end;
     bestType := if Qltb 0 statEdge then over else under |}.

(** The (player, statistic) pairs in the order of the scan: the players in
    roster order, the home team first, and for each player points, assists,
    rebounds. *)
Definition scanned (all : list TeamPlayerProjection) : list BestProp :=
  flat_map (fun p => [candidate p points; candidate p assists; candidate p rebounds])
    all.

(** An absolute edge of at least 12 per cent. *)
Definition qualifies (c : BestProp) : bool :=
  Qleb 12 (Qabs (bestEdge c)).

(** One check of the loop, on a pair. *)
Definition consider (bestProp : option BestProp) (c : BestProp) : option BestProp :=
  if qualifies c then
    match bestProp with
    | None => Some c
    | Some best =>
        if Qltb (Qabs (bestEdge best)) (Qabs (bestEdge c)) then Some c else bestProp
    end
  else bestProp.

(** [best] is the pair of the largest absolute edge among the qualifying
    pairs of [cands], the first one in the order of [cands] when several
    pairs have that edge. *)
Definition firstLargest (cands : list BestProp) (best : BestProp) : Prop :=
  exists before after,
    cands = before ++ best :: after /\
    qualifies best = true /\
    (forall c, In c before -> qualifies c = true ->
       Qabs (bestEdge c) < Qabs (bestEdge best)) /\
    (forall c, In c after -> qualifies c = true ->
       Qabs (bestEdge c) <= Qabs (bestEdge best)).






(** A projection record with the four edges given: each projection is the
    line of the statistic moved by the edge. *)
Definition withEdges (who : string) (pointsEdge assistsEdge reboundsEdge threesEdge : Q)
    : PlayerProjection :=
  {| playerId := who; playerName := who; position := "G";
     projection := 20 + pointsEdge * 0.2; line := 20; edge := pointsEdge;
     assistsProjection := 5 + assistsEdge * 0.05; assistsLine := 5;
     assistsEdge := assistsEdge;
     reboundsProjection := 10 + reboundsEdge * 0.1; reboundsLine := 10;
     reboundsEdge := reboundsEdge;
     threesProjection := 2 + threesEdge * 0.02; threesLine := 2;
     threesEdge := threesEdge;
     isValueBet := false; confidence := 90 |}.

End PickSpec.

(** ** Sample data *)

Module Sample.

Definition mkPlayer (pid : string) (u ppg : Q) : PlayerData :=
  {| id := pid; name := pid; usage := u; basePoints := ppg; synergyStats := None |}.

Definition report (pid : string) (s : Injury.Status) : Injury.t :=
  {| Injury.playerId := pid; Injury.status := s |}.

(** The roster of the end-to-end scenarios A and B. *)
Definition star : PlayerData := mkPlayer "star" 0.30 30.
Definition second : PlayerData := mkPlayer "second" 0.20 20.
Definition duo : list PlayerData := [star; second].

(** The same roster with a third player who has not used a possession. *)
Definition rookie : PlayerData := mkPlayer "rookie" 0 5.
Definition trio : list PlayerData := [star; second; rookie].

End Sample.

(** ** Proofs *)

(** *** The end-to-end scenarios of the specification *)

(** Scenario A: the player out is not in the core, nothing is
    redistributed; the player out has the multiplier 0. *)
Example scenario_A :
  let m := calculateParetoAdjustment Sample.duo [Sample.report "second" Injury.Out] in
  m !! "star" = Some (Fin 1) /\ m !! "second" = Some (Fin 0).
Proof. split; reflexivity. Qed.

(** Scenario B: the star is out and the second player takes the usage of
    the star, with the multiplier [(0.20 + 0.30 * (0.20 / 0.20)) / 0.20]. *)
Example scenario_B :
  let m := calculateParetoAdjustment Sample.duo [Sample.report "star" Injury.Out] in
  m !! "star" = Some (Fin 0) /\
  exists x, m !! "second" = Some (Fin x) /\ x == 2.5.
Proof. split; [reflexivity |]. eexists. split; reflexivity. Qed.

(** The second player of scenario B on a back-to-back against the line
    26.5: 20 * 2.5 * 0.85 * 0.97 = 41.225. *)
Example scenario_B_projection :
  calculatePlayerProjection Sample.second None [Sample.report "star" Injury.Out]
    Sample.duo true (Some 26.5) =
  {| playerId := "second";
     playerName := "second";
     projectedPoints := Fin 41.2;
     confidence := 60;
     reason := "Base: 20.0 PPG average. +150% volume (teammate absence). " +:+
               "-15% efficiency (spacing affected). Back-to-back game fatigue";
     isValueBet := true;
     edge := Fin 55.6;
     vegasLine := Some 26.5;
     vegasOdd := None |}.
Proof. reflexivity. Qed.

(** *** Comparisons of rationals *)

Lemma Qltb_lt (x y : Q) : Qltb x y = true <-> x < y.
Proof.
  unfold Qltb. rewrite negb_true_iff, <- not_true_iff_false, Qle_bool_iff.
  split; [apply Qnot_le_lt | apply Qlt_not_le].
Qed.

Lemma Qltb_ge (x y : Q) : Qltb x y = false <-> y <= x.
Proof. unfold Qltb. rewrite negb_false_iff. apply Qle_bool_iff. Qed.

Lemma Qleb_le (x y : Q) : Qleb x y = true <-> x <= y.
Proof. apply Qle_bool_iff. Qed.

Lemma Qleb_gt (x y : Q) : Qleb x y = false <-> y < x.
Proof.
  unfold Qleb. rewrite <- not_true_iff_false, Qle_bool_iff.
  split; [apply Qnot_le_lt | apply Qlt_not_le].
Qed.

Lemma Qis0_true (x : Q) : Qis0 x = true <-> x == 0.
Proof. apply Qeq_bool_iff. Qed.

Lemma Qis0_false (x : Q) : Qis0 x = false <-> ~ x == 0.
Proof. unfold Qis0. rewrite <- not_true_iff_false, Qeq_bool_iff. reflexivity. Qed.

(** *** The injury report of a player *)

(** Arithmetic with the divisions by constants of the code. *)
Ltac lra_div :=
  unfold Qdiv in *;
  change (/ 4) with (1 # 4) in *; change (/ 5) with (1 # 5) in *;
  change (/ 10) with (1 # 10) in *; change (/ 30) with (1 # 30) in *;
  change (/ 100) with (1 # 100) in *;
  lra.

(** Rounding to one decimal moves a number by at most half a tenth. *)
Lemma Qround_fixed_near (x : Q) : Qabs (Qround_fixed 1 x - x) <= 0.05.
Proof.
  unfold Qround_fixed, fixed_units. change (inject_Z (10 ^ Z.of_nat 1)) with 10.
  pose proof (Qfloor_le (Qabs x * 10 + 0.5)) as Hle.
  pose proof (Qlt_floor (Qabs x * 10 + 0.5)) as Hlt.
  rewrite inject_Z_plus in Hlt. change (inject_Z 1) with 1 in Hlt.
  assert (Ha : if Qltb x 0 then Qabs x == - x else Qabs x == x).
  { destruct (Qltb x 0) eqn:Hx.
    - apply Qltb_lt in Hx. apply Qabs_neg. lra.
    - apply Qltb_ge in Hx. apply Qabs_pos. exact Hx. }
  set (a := Qabs x) in *.
  set (n := inject_Z (Qfloor (a * 10 + 0.5))) in *. clearbody n a.
  destruct (Qltb x 0); apply Qabs_Qle_condition; split; lra_div.
Qed.

Lemma isStatusOut_statusOf (injuries : list Injury.t) (pid : string) :
  isStatusOut (findInjury injuries pid) = true <->
  Spec.statusOf injuries pid = Some Injury.Out.
Proof.
  unfold Spec.statusOf, isStatusOut.
  destruct (findInjury injuries pid) as [[p []]|]; simpl; split; congruence.
Qed.

Lemma isDayToDay_statusOf (injuries : list Injury.t) (pid : string) :
  isDayToDay (findInjury injuries pid) = true <->
  Spec.statusOf injuries pid = Some Injury.DayToDay.
Proof.
  unfold Spec.statusOf, isDayToDay.
  destruct (findInjury injuries pid) as [[p []]|]; simpl; split; congruence.
Qed.

Lemma isOut_unavailable (injuries : list Injury.t) (p : PlayerData) :
  isOut (findInjury injuries (id p)) = Spec.unavailable injuries p.
Proof.
  unfold Spec.unavailable, Spec.statusOf, isOut.
  destruct (findInjury injuries (id p)) as [[q []]|]; reflexivity.
Qed.

(** *** The gate and the confidence score *)



(** C10. For a player who is not gated as [Out] the confidence is 85 minus
    10 for a back-to-back, 15 for a volume multiplier above 1.2 and 20 for
    the status Day-To-Day; it lies between 40 and 85, so that the clamp to
    30 and 95 never changes it. *)
Theorem C10_confidence_range (player : PlayerData)
    (opponentDefense : option TeamDefenseStats) (injuries : list Injury.t)
    (teamRoster : list PlayerData) (isB2B : bool) (line : option Q) :
  Spec.statusOf injuries (id player) <> Some Injury.Out ->
  let c := confidence
    (calculatePlayerProjection player opponentDefense injuries teamRoster isB2B line) in
  (40 <= c <= 85)%Z /\
  c = (85 - (if isB2B then 10 else 0)
          - (if ngt (volumeMultiplierOf player teamRoster injuries) (Fin 1.2)
             then 15 else 0)
          - (if isDayToDay (findInjury injuries (id player)) then 20 else 0))%Z.
Proof.
  intros Hgate. rewrite <- isStatusOut_statusOf in Hgate.
  apply not_true_is_false in Hgate.
  unfold calculatePlayerProjection. rewrite Hgate.
  cbn [confidence]. unfold confidenceScore.
  destruct isB2B,
    (ngt (volumeMultiplierOf player teamRoster injuries) (Fin 1.2)),
    (isDayToDay (findInjury injuries (id player))); lia.
Qed.

(** The second player on a back-to-back with the star out: 85 - 10 - 15. *)
Lemma C10_confidence_range_witness :
  let injuries := [Sample.report "star" Injury.Out] in
  Spec.statusOf injuries (id Sample.second) <> Some Injury.Out /\
  confidence
    (calculatePlayerProjection Sample.second None injuries Sample.duo true None) = 60%Z /\
  (40 <= 60 <= 85)%Z.
Proof.
  intros injuries.
  assert (Hgate : Spec.statusOf injuries (id Sample.second) <> Some Injury.Out)
    by discriminate.
  destruct (C10_confidence_range Sample.second None injuries Sample.duo true None Hgate)
    as [Hrange Hvalue].
  split; [exact Hgate |]. split; [rewrite Hvalue; reflexivity | lia].
Defined.

(** *** The edge against the market line *)

(** C4, as the code has it. With a line above 0 the edge is
    [(projection - line) / line * 100]; with a line at or below 0, or no
    line at all, the edge is 0 and the flag is off. The value-bet flag is
    set exactly when the signed edge is at least 10 per cent: a projection
    below the line never sets it. Projection 28.1 against the line 26.5
    has an edge of about 6.04 and no flag; projection 30.0 against 26.5
    has an edge of about 13.2 and the flag. *)
Theorem C4_edge_signed_threshold :
  (forall projection line : Q, 0 < line ->
     edgeOf (calculateEdge (Fin projection) (Fin line)) =
       Fin ((projection - line) / line * 100) /\
     (isValue (calculateEdge (Fin projection) (Fin line)) = true <->
      10 <= (projection - line) / line * 100)) /\
  (forall projection line : Q, 0 < line -> projection <= line ->
     isValue (calculateEdge (Fin projection) (Fin line)) = false) /\
  (forall projection line : Q, line <= 0 ->
     calculateEdge (Fin projection) (Fin line) =
       {| edgeOf := Fin 0; isValue := false |}) /\
  (forall running : number,
     edgeAgainst running None = {| edgeOf := Fin 0; isValue := false |}) /\
  (exists e : Q,
     calculateEdge (Fin 28.1) (Fin 26.5) = {| edgeOf := Fin e; isValue := false |} /\
     6.035 < e < 6.045) /\
  (exists e : Q,
     calculateEdge (Fin 30.0) (Fin 26.5) = {| edgeOf := Fin e; isValue := true |} /\
     13.15 < e < 13.25).
Proof.
  assert (Hopen : forall projection line : Q, 0 < line ->
            calculateEdge (Fin projection) (Fin line) =
              {| edgeOf := Fin ((projection - line) / line * 100);
                 isValue := Qleb VALUE_THRESHOLD ((projection - line) / line) |}).
  { intros projection line Hline. unfold calculateEdge. simpl.
    assert (Hle : Qleb line 0 = false) by (apply Qleb_gt; exact Hline).
    assert (Hz : Qis0 line = false).
    { apply Qis0_false. intros H0. rewrite H0 in Hline. exact (Qlt_irrefl 0 Hline). }
    rewrite Hle. simpl. rewrite Hz. reflexivity. }
  split; [| split; [| split; [| split; [| split]]]].
  - intros projection line Hline. rewrite Hopen by assumption. simpl.
    split; [reflexivity |]. rewrite Qleb_le.
    unfold VALUE_THRESHOLD. set (x := (projection - line) / line). lra.
  - intros projection line Hline Hbelow. rewrite Hopen by assumption. simpl.
    apply Qleb_gt. unfold VALUE_THRESHOLD.
    apply Qle_lt_trans with 0; [| reflexivity].
    apply Qle_shift_div_r; [exact Hline |]. lra.
  - intros projection line Hline. unfold calculateEdge. simpl.
    apply Qleb_le in Hline. rewrite Hline. reflexivity.
  - reflexivity.
  - eexists. split; [vm_compute; reflexivity |]. split; reflexivity.
  - eexists. split; [vm_compute; reflexivity |]. split; reflexivity.
Qed.

Lemma C4_edge_signed_threshold_witness :
  0 < 26.5 /\
  edgeOf (calculateEdge (Fin 30) (Fin 26.5)) = Fin ((30 - 26.5) / 26.5 * 100) /\
  isValue (calculateEdge (Fin 30) (Fin 26.5)) = true.
Proof.
  assert (Hline : 0 < 26.5) by reflexivity.
  destruct (proj1 C4_edge_signed_threshold 30 26.5 Hline) as [Hedge Hflag].
  split; [exact Hline |]. split; [exact Hedge |].
  apply Hflag. discriminate.
Defined.

(** C4 as the specification words it fails: a projection of 20 against the
    line 26.5 is more than 10 per cent below the line, and the flag is
    off. *)
Lemma C4_under_not_flagged :
  exists e : Q,
    edgeOf (calculateEdge (Fin 20) (Fin 26.5)) = Fin e /\
    e <= -10 /\
    Spec.valueFlagAbsolute e = true /\
    isValue (calculateEdge (Fin 20) (Fin 26.5)) = false.
Proof.
  eexists. split; [vm_compute; reflexivity |].
  split; [discriminate |]. split; reflexivity.
Qed.

(** *** The code against the words of the specification

    The order by usage, the usage core and the rank of a play type as the
    code computes them are the ones of the specification. *)

Lemma extractTop_sortByUsage (players : list PlayerData) (top : PlayerData)
    (others : list PlayerData) :
  Spec.extractTop players = Some (top, others) ->
  sortByUsage players = top :: sortByUsage others.
Proof.
  revert top others. induction players as [|x rest IH]; intros top others Htop;
    [discriminate Htop |].
  simpl in Htop. destruct (Spec.extractTop rest) as [[top' others']|] eqn:Hrest.
  - specialize (IH top' others' eq_refl). simpl. rewrite IH. simpl.
    destruct (Qltb (usage x) (usage top')); injection Htop as <- <-.
    + reflexivity.
    + simpl. rewrite IH. reflexivity.
  - injection Htop as <- <-. destruct rest as [|y rest]; [reflexivity |].
    simpl in Hrest. destruct (Spec.extractTop rest) as [[top' others']|];
      [destruct (Qltb (usage y) (usage top')) |]; discriminate Hrest.
Qed.

Lemma extractTop_None (players : list PlayerData) :
  Spec.extractTop players = None -> players = [].
Proof.
  destruct players as [|x rest]; [reflexivity |]. simpl.
  destruct (Spec.extractTop rest) as [[top others]|];
    [destruct (Qltb (usage x) (usage top)) |]; discriminate.
Qed.

(** The first players of the sorted roster are the first players by
    descending usage. *)
Lemma firstn_sortByUsage (k : nat) (roster : list PlayerData) :
  firstn k (sortByUsage roster) = Spec.topPlayers k roster.
Proof.
  revert roster. induction k as [|k IH]; intros roster; [reflexivity |].
  simpl. destruct (Spec.extractTop roster) as [[top others]|] eqn:Htop.
  - rewrite (extractTop_sortByUsage roster top others Htop). simpl.
    rewrite IH. reflexivity.
  - rewrite (extractTop_None roster Htop). reflexivity.
Qed.

Lemma top20Count_coreSize (roster : list PlayerData) :
  Z.to_nat (top20Count roster) = Spec.coreSize (length roster).
Proof. reflexivity. Qed.

(** [paretoCoreIds.has(player.id)] says that the player is in the usage
    core. *)
Lemma paretoCore_inCore (roster : list PlayerData) (p : PlayerData) :
  bool_decide (id p ∈ paretoCore roster) = Spec.inCore roster p.
Proof.
  unfold Spec.inCore, Spec.usageCore, paretoCore.
  rewrite top20Count_coreSize, firstn_sortByUsage.
  set (core := Spec.topPlayers _ _). clearbody core.
  apply eq_true_iff_eq. rewrite bool_decide_eq_true, elem_of_list_to_set.
  rewrite existsb_exists. split.
  - intros Hin. apply list_elem_of_In, in_map_iff in Hin.
    destruct Hin as (c & Hid & Hc). exists c. split; [exact Hc |].
    apply String.eqb_eq. exact Hid.
  - intros (c & Hc & Hid). apply String.eqb_eq in Hid.
    apply list_elem_of_In, in_map_iff. exists c. auto.
Qed.

(** The rank that the loop of [calculateMatchupModifier] reads for a play
    type is the opponent's rank for that play type. *)
Lemma rankAt_opponentRank (defense : TeamDefenseStats) (pt : string) :
  rankAt (defenseRanks defense) <$> playTypeToDefenseKey pt =
  Spec.opponentRank defense pt.
Proof.
  unfold Spec.opponentRank, Spec.ranksByPlayType, playTypeToDefenseKey.
  cbn [find fst].
  repeat (destruct (String.eqb pt _); [reflexivity |]). reflexivity.
Qed.

(** *** The matchup modifier *)

Lemma matchupStep_totalModifier (defense : TeamDefenseStats) (acc : MatchupAcc)
    (pt : SynergyPlayType) :
  totalModifier (matchupStep defense acc pt) ==
  totalModifier acc + Spec.contribution defense pt.
Proof.
  unfold matchupStep, Spec.contribution.
  rewrite <- rankAt_opponentRank.
  destruct (playTypeToDefenseKey (playType pt)) as [key|]; simpl.
  - change (Qltb (frequency pt) 0.15) with (negb (Qleb 0.15 (frequency pt))).
    destruct (Qleb 0.15 (frequency pt)); simpl; [| ring].
    unfold ELITE_DEFENSE_RANK, WEAK_DEFENSE_RANK, SYNERGY_PENALTY, SYNERGY_BOOST.
    rewrite Z.geb_leb.
    set (rank := rankAt (defenseRanks defense) key).
    destruct (Z.leb_spec rank 5), (Z.leb_spec 25 rank); simpl; try lia; ring.
  - destruct (Qleb 0.15 (frequency pt)); ring.
Qed.

Lemma fold_matchupStep_totalModifier (defense : TeamDefenseStats)
    (pts : list SynergyPlayType) (acc : MatchupAcc) :
  totalModifier (fold_left (matchupStep defense) pts acc) ==
  totalModifier acc + Spec.Qsum (map (Spec.contribution defense) pts).
Proof.
  revert acc. induction pts as [|pt pts IH]; intros acc; simpl.
  - ring.
  - rewrite IH, matchupStep_totalModifier. ring.
Qed.

(** C9. With both profiles present the modifier is 1 plus the sum of the
    contributions of the play types: for a frequency of at least 0.15,
    +0.10 times the frequency against a rank of 25 or more, -0.10 times the
    frequency against a rank of 5 or less, nothing for the ranks in
    between. Without a synergy profile or without a defence profile the
    modifier is 1 and the reason is empty. A spot-up frequency of 0.30
    against the spot-up rank 28 contributes 0.03. *)
Theorem C9_matchup_modifier :
  (forall (synergy : PlayerSynergyStats) (defense : TeamDefenseStats),
     modifier (calculateMatchupModifier (Some synergy) (Some defense)) ==
     1 + Spec.Qsum (map (Spec.contribution defense) (playTypes synergy))) /\
  (forall defense : option TeamDefenseStats,
     modifier (calculateMatchupModifier None defense) == 1 /\
     matchupReason (calculateMatchupModifier None defense) = "") /\
  (forall synergy : option PlayerSynergyStats,
     modifier (calculateMatchupModifier synergy None) == 1 /\
     matchupReason (calculateMatchupModifier synergy None) = "") /\
  (forall (who : string) (i p t po o : Z),
     let defense :=
       {| alias := who;
          defenseRanks := {| iso := i; pnr := p; spotup := 28; transition := t;
                             postup := po; overall := o |} |} in
     let spot := {| playType := "Spotup"; frequency := 0.30 |} in
     Spec.contribution defense spot == 0.03 /\
     modifier (calculateMatchupModifier (Some {| playTypes := [spot] |}) (Some defense))
       == 1.03).
Proof.
  split; [| split; [| split]].
  - intros synergy defense. unfold calculateMatchupModifier. simpl.
    rewrite fold_matchupStep_totalModifier. simpl. ring.
  - intros defense. split; reflexivity.
  - intros synergy. destruct synergy; split; reflexivity.
  - intros who i p t po o defense spot. split; reflexivity.
Qed.

(** *** The loop of the redistribution *)

Lemma unavailable_same_id (injuries : list Injury.t) (p q : PlayerData) :
  id p = id q -> Spec.unavailable injuries p = Spec.unavailable injuries q.
Proof. unfold Spec.unavailable. intros ->. reflexivity. Qed.

Lemma initialAdjustments_lookup (l : list PlayerData) (m : gmap string number)
    (k : string) :
  fold_left (fun m p => <[id p := Fin 1]> m) l m !! k =
  if existsb (fun p => String.eqb (id p) k) l then Some (Fin 1) else m !! k.
Proof.
  revert m. induction l as [|p l IH]; intros m; simpl; [reflexivity |].
  rewrite IH. destruct (existsb _ l);
    [rewrite orb_true_r; reflexivity | rewrite orb_false_r].
  destruct (String.eqb_spec (id p) k) as [->|Hne].
  - apply lookup_insert_eq.
  - apply lookup_insert_ne. exact Hne.
Qed.

Section ParetoScan.

Variable injuries : list Injury.t.
Variable core : gset string.

Lemma scan_activePlayers (l : list PlayerData) (st : ParetoScan) :
  activePlayers (fold_left (paretoScanStep injuries core) l st) =
  activePlayers st ++ List.filter (Spec.active injuries) l.
Proof.
  revert st. induction l as [|p l IH]; intros st; simpl.
  - symmetry. apply app_nil_r.
  - rewrite IH. unfold paretoScanStep, Spec.active.
    rewrite isOut_unavailable.
    destruct (Spec.unavailable injuries p); simpl; [reflexivity |].
    rewrite <- app_assoc. reflexivity.
Qed.

Lemma scan_totalActiveUsage (l : list PlayerData) (st : ParetoScan) :
  totalActiveUsage (fold_left (paretoScanStep injuries core) l st) ==
  totalActiveUsage st + Spec.Qsum (map usage (List.filter (Spec.active injuries) l)).
Proof.
  revert st. induction l as [|p l IH]; intros st; simpl.
  - ring.
  - rewrite IH. unfold paretoScanStep, Spec.active.
    rewrite isOut_unavailable.
    destruct (Spec.unavailable injuries p); simpl; ring.
Qed.

Lemma scan_totalMissingUsage (l : list PlayerData) (st : ParetoScan) :
  totalMissingUsage (fold_left (paretoScanStep injuries core) l st) ==
  totalMissingUsage st +
  Spec.Qsum (map usage
    (List.filter (fun p => Spec.unavailable injuries p && bool_decide (id p ∈ core)) l)).
Proof.
  revert st. induction l as [|p l IH]; intros st; simpl.
  - ring.
  - rewrite IH. unfold paretoScanStep.
    rewrite isOut_unavailable.
    destruct (Spec.unavailable injuries p); simpl; [| ring].
    destruct (bool_decide (id p ∈ core)); simpl; ring.
Qed.

Lemma scan_adjustments (l : list PlayerData) (st : ParetoScan) (k : string) :
  adjustments (fold_left (paretoScanStep injuries core) l st) !! k =
  if existsb (fun p => String.eqb (id p) k && Spec.unavailable injuries p) l
  then Some (Fin 0) else adjustments st !! k.
Proof.
  revert st. induction l as [|p l IH]; intros st; simpl; [reflexivity |].
  rewrite IH. destruct (existsb _ l);
    [rewrite orb_true_r; reflexivity | rewrite orb_false_r].
  unfold paretoScanStep. rewrite isOut_unavailable.
  destruct (Spec.unavailable injuries p); simpl.
  - destruct (String.eqb_spec (id p) k) as [->|Hne]; simpl.
    + apply lookup_insert_eq.
    + apply lookup_insert_ne. exact Hne.
  - rewrite andb_false_r. reflexivity.
Qed.

End ParetoScan.

(** The last loop writes the multiplier of an active player under the id
    of that player. *)
Lemma redistribute_lookup (f : PlayerData -> number) (l : list PlayerData)
    (m : gmap string number) (k : string) :
  (exists p, In p l /\ id p = k /\
     fold_left (fun m p => <[id p := f p]> m) l m !! k = Some (f p)) \/
  ((forall p, In p l -> id p <> k) /\
     fold_left (fun m p => <[id p := f p]> m) l m !! k = m !! k).
Proof.
  revert m. induction l as [|p l IH]; intros m; simpl.
  - right. split; [intros p [] | reflexivity].
  - destruct (IH (<[id p := f p]> m)) as [(q & Hq & Hid & Hlook) | [Hnone Hlook]].
    + left. exists q. auto.
    + destruct (String.eqb_spec (id p) k) as [Heq|Hne].
      * left. exists p. split; [auto |]. split; [exact Heq |].
        rewrite Hlook, <- Heq. apply lookup_insert_eq.
      * right. split.
        -- intros q [<-|Hq]; [exact Hne | apply Hnone, Hq].
        -- rewrite Hlook. apply lookup_insert_ne. exact Hne.
Qed.

(** *** The multipliers that [calculateParetoAdjustment] returns *)

Lemma existsb_same_id_unavailable (injuries : list Injury.t) (player : PlayerData)
    (l : list PlayerData) :
  existsb (fun p => String.eqb (id p) (id player) && Spec.unavailable injuries p) l =
  existsb (fun p => String.eqb (id p) (id player)) l && Spec.unavailable injuries player.
Proof.
  induction l as [|p l IH]; simpl; [reflexivity |].
  rewrite IH. destruct (String.eqb_spec (id p) (id player)) as [Heq|Hne]; simpl.
  - rewrite (unavailable_same_id injuries p player Heq). clear IH.
    destruct (Spec.unavailable injuries player); simpl; [reflexivity |].
    apply andb_false_r.
  - reflexivity.
Qed.

Lemma existsb_id_In (player : PlayerData) (l : list PlayerData) :
  In player l -> existsb (fun p => String.eqb (id p) (id player)) l = true.
Proof.
  intros Hin. apply existsb_exists. exists player.
  split; [exact Hin | apply String.eqb_refl].
Qed.

Lemma paretoScan_totalActiveUsage (roster : list PlayerData) (injuries : list Injury.t) :
  totalActiveUsage (paretoScan roster injuries) == Spec.activeUsage roster injuries.
Proof.
  unfold paretoScan. rewrite scan_totalActiveUsage. simpl.
  unfold Spec.activeUsage. ring.
Qed.

Lemma paretoScan_totalMissingUsage (roster : list PlayerData) (injuries : list Injury.t) :
  totalMissingUsage (paretoScan roster injuries) == Spec.missingCoreUsage roster injuries.
Proof.
  unfold paretoScan. rewrite scan_totalMissingUsage. simpl.
  unfold Spec.missingCoreUsage.
  rewrite (List.filter_ext _
             (fun p => Spec.unavailable injuries p && Spec.inCore roster p));
    [ring |].
  intros p. rewrite paretoCore_inCore. reflexivity.
Qed.

Lemma paretoScan_activePlayers (roster : list PlayerData) (injuries : list Injury.t) :
  activePlayers (paretoScan roster injuries) = List.filter (Spec.active injuries) roster.
Proof. unfold paretoScan. rewrite scan_activePlayers. reflexivity. Qed.

(** After the loop over the roster: 0 for an unavailable player of the
    roster, 1 for an active one, nothing for an id that is not in the
    roster. *)
Lemma paretoScan_adjustments (roster : list PlayerData) (injuries : list Injury.t)
    (player : PlayerData) :
  adjustments (paretoScan roster injuries) !! id player =
  if existsb (fun p => String.eqb (id p) (id player)) roster
  then Some (Fin (if Spec.unavailable injuries player then 0 else 1))
  else None.
Proof.
  unfold paretoScan. rewrite scan_adjustments. cbn [adjustments].
  unfold initialAdjustments.
  rewrite existsb_same_id_unavailable, initialAdjustments_lookup, lookup_empty.
  destruct (existsb _ roster), (Spec.unavailable injuries player); reflexivity.
Qed.

(** The last loop leaves the entry of an unavailable player alone. *)
Lemma redistribute_skips_unavailable (injuries : list Injury.t)
    (f : PlayerData -> number) (roster : list PlayerData) (m : gmap string number)
    (player : PlayerData) :
  Spec.unavailable injuries player = true ->
  fold_left (fun m p => <[id p := f p]> m)
    (List.filter (Spec.active injuries) roster) m !! id player = m !! id player.
Proof.
  intros Hout.
  destruct (redistribute_lookup f (List.filter (Spec.active injuries) roster) m
              (id player)) as [(q & Hq & Hid & _) | [_ Hlook]]; [| exact Hlook].
  apply filter_In in Hq. destruct Hq as [_ Hactive].
  unfold Spec.active in Hactive.
  rewrite (unavailable_same_id injuries q player Hid), Hout in Hactive.
  discriminate.
Qed.

(** The entry of an unavailable player, in or out of the roster. *)
Lemma pareto_lookup_unavailable (roster : list PlayerData) (injuries : list Injury.t)
    (player : PlayerData) :
  Spec.unavailable injuries player = true ->
  calculateParetoAdjustment roster injuries !! id player =
  if existsb (fun p => String.eqb (id p) (id player)) roster
  then Some (Fin 0) else None.
Proof.
  intros Hout. unfold calculateParetoAdjustment.
  destruct roster as [|p0 roster0]; [apply lookup_empty |].
  set (roster := p0 :: roster0). change (length roster =? 0)%nat with false.
  cbv iota zeta.
  assert (Hscan := paretoScan_adjustments roster injuries player).
  rewrite Hout in Hscan.
  destruct (Qltb 0 (totalMissingUsage (paretoScan roster injuries)) &&
            Qltb 0 (totalActiveUsage (paretoScan roster injuries))).
  - rewrite paretoScan_activePlayers.
    rewrite redistribute_skips_unavailable by exact Hout. exact Hscan.
  - exact Hscan.
Qed.

(** The entry of an active player of the roster when nothing is
    redistributed. *)
Lemma pareto_lookup_active_plain (roster : list PlayerData) (injuries : list Injury.t)
    (player : PlayerData) :
  In player roster ->
  Spec.active injuries player = true ->
  Qltb 0 (totalMissingUsage (paretoScan roster injuries)) &&
  Qltb 0 (totalActiveUsage (paretoScan roster injuries)) = false ->
  calculateParetoAdjustment roster injuries !! id player = Some (Fin 1).
Proof.
  intros Hin Hactive Hcond. unfold calculateParetoAdjustment.
  destruct roster as [|p0 roster0]; [destruct Hin |].
  set (roster := p0 :: roster0) in *. change (length roster =? 0)%nat with false.
  cbv iota zeta. rewrite Hcond.
  rewrite paretoScan_adjustments, (existsb_id_In player roster Hin).
  unfold Spec.active in Hactive. apply negb_true_iff in Hactive.
  rewrite Hactive. reflexivity.
Qed.

(** The entry of an active player of the roster under redistribution: the
    multiplier computed for an active player of that id. *)
Lemma pareto_lookup_active_redistributed (roster : list PlayerData)
    (injuries : list Injury.t) (player : PlayerData) :
  In player roster ->
  Spec.active injuries player = true ->
  Qltb 0 (totalMissingUsage (paretoScan roster injuries)) &&
  Qltb 0 (totalActiveUsage (paretoScan roster injuries)) = true ->
  exists q, In q roster /\ Spec.active injuries q = true /\ id q = id player /\
    calculateParetoAdjustment roster injuries !! id player =
    Some (newMultiplier (totalMissingUsage (paretoScan roster injuries))
            (totalActiveUsage (paretoScan roster injuries)) q).
Proof.
  intros Hin Hactive Hcond. unfold calculateParetoAdjustment.
  destruct roster as [|p0 roster0]; [destruct Hin |].
  set (roster := p0 :: roster0) in *. change (length roster =? 0)%nat with false.
  cbv iota zeta. rewrite Hcond, paretoScan_activePlayers.
  set (f := newMultiplier _ _).
  destruct (redistribute_lookup f (List.filter (Spec.active injuries) roster)
              (adjustments (paretoScan roster injuries)) (id player))
    as [(q & Hq & Hid & Hlook) | [Hnone _]].
  - apply filter_In in Hq. destruct Hq as [Hq Hqa].
    exists q. auto.
  - exfalso. apply (Hnone player); [| reflexivity].
    apply filter_In. auto.
Qed.

Lemma newMultiplier_value (missing total : Q) (p : PlayerData) :
  ~ usage p == 0 -> ~ total == 0 ->
  exists m, newMultiplier missing total p = Fin m /\ m == 1 + missing / total.
Proof.
  intros Hu Ht. unfold newMultiplier, ndiv.
  apply Qis0_false in Hu, Ht. rewrite Ht. cbn [nmul nadd]. rewrite Hu.
  eexists. split; [reflexivity |].
  apply Qis0_false in Hu, Ht. field. auto.
Qed.

(** *** Conservation of usage *)

Lemma Qsum_nonneg (l : list Q) : (forall x, In x l -> 0 <= x) -> 0 <= Spec.Qsum l.
Proof.
  induction l as [|x l IH]; intros Hl; simpl; [apply Qle_refl |].
  assert (0 <= x) by (apply Hl; left; reflexivity).
  assert (0 <= Spec.Qsum l) by (apply IH; intros y Hy; apply Hl; right; exact Hy).
  lra.
Qed.

(** The usage of a roster splits into the usage of the active players, of
    the unavailable players of the core and of the other unavailable
    players. *)
Lemma usage_partition (roster : list PlayerData) (injuries : list Injury.t) :
  Spec.totalUsage roster ==
  Spec.activeUsage roster injuries + Spec.missingCoreUsage roster injuries +
  Spec.nonCoreUnavailableUsage roster injuries.
Proof.
  unfold Spec.totalUsage, Spec.activeUsage, Spec.missingCoreUsage,
    Spec.nonCoreUnavailableUsage, Spec.active.
  generalize (Spec.inCore roster) as core. intros core.
  induction roster as [|p roster IH]; simpl; [ring |].
  rewrite IH.
  destruct (Spec.unavailable injuries p), (core p); simpl; ring.
Qed.

Lemma missingCoreUsage_nonneg (roster : list PlayerData) (injuries : list Injury.t) :
  (forall p, In p roster -> 0 <= usage p) ->
  0 <= Spec.missingCoreUsage roster injuries.
Proof.
  intros Hnonneg. apply Qsum_nonneg. intros x Hx.
  apply in_map_iff in Hx. destruct Hx as (p & <- & Hp).
  apply filter_In in Hp. apply Hnonneg, Hp.
Qed.

(** A sum of terms [usage p * c], all finite, is [c] times the usage. *)
Lemma nsum_scaled (l : list PlayerData) (f : PlayerData -> number) (c : Q) :
  (forall p, In p l -> exists t, f p = Fin t /\ t == usage p * c) ->
  exists total, Spec.nsum (map f l) = Fin total /\
    total == c * Spec.Qsum (map usage l).
Proof.
  induction l as [|p l IH]; intros Hterms; simpl.
  - exists 0. split; [reflexivity | ring].
  - destruct (Hterms p) as (t & Hfp & Ht); [left; reflexivity |].
    destruct IH as (rest & Hrest & Hsum);
      [intros q Hq; apply Hterms; right; exact Hq |].
    exists (t + rest). rewrite Hfp, Hrest. split; [reflexivity |].
    rewrite Ht, Hsum. ring.
Qed.

(** *** Degenerate rosters *)

(** What holds of the safety property: an empty roster gives the empty
    mapping; when the active players have no usage in total, every player
    of the roster keeps the default (0 when unavailable, 1 when active);
    and when no active player has usage 0, every multiplier is finite. *)
Lemma pareto_degenerate_rosters :
  (forall injuries, calculateParetoAdjustment [] injuries = ∅) /\
  (forall roster injuries,
     Spec.activeUsage roster injuries <= 0 ->
     forall p, In p roster ->
       calculateParetoAdjustment roster injuries !! id p =
       Some (Fin (if Spec.unavailable injuries p then 0 else 1))) /\
  (forall roster injuries,
     (forall p, In p roster -> Spec.active injuries p = true -> ~ usage p == 0) ->
     forall p, In p roster ->
       exists m : Q, calculateParetoAdjustment roster injuries !! id p = Some (Fin m)).
Proof.
  split; [reflexivity |]. split.
  - intros roster injuries Hnone p Hp.
    assert (Hcond : Qltb 0 (totalMissingUsage (paretoScan roster injuries)) &&
                    Qltb 0 (totalActiveUsage (paretoScan roster injuries)) = false).
    { apply andb_false_iff. right. apply Qltb_ge.
      rewrite paretoScan_totalActiveUsage. exact Hnone. }
    destruct (Spec.unavailable injuries p) eqn:Hout.
    + rewrite pareto_lookup_unavailable by exact Hout.
      rewrite (existsb_id_In p roster Hp). reflexivity.
    + apply pareto_lookup_active_plain; [exact Hp | | exact Hcond].
      unfold Spec.active. rewrite Hout. reflexivity.
  - intros roster injuries Hnonzero p Hp.
    destruct (Spec.unavailable injuries p) eqn:Hout.
    { exists 0. rewrite pareto_lookup_unavailable by exact Hout.
      rewrite (existsb_id_In p roster Hp). reflexivity. }
    assert (Hactive : Spec.active injuries p = true)
      by (unfold Spec.active; rewrite Hout; reflexivity).
    destruct (Qltb 0 (totalMissingUsage (paretoScan roster injuries)) &&
              Qltb 0 (totalActiveUsage (paretoScan roster injuries))) eqn:Hcond.
    + destruct (pareto_lookup_active_redistributed roster injuries p Hp Hactive Hcond)
        as (q & Hq & Hqa & _ & Hlook).
      apply andb_true_iff in Hcond. destruct Hcond as [_ HA]. apply Qltb_lt in HA.
      destruct (newMultiplier_value
                  (totalMissingUsage (paretoScan roster injuries))
                  (totalActiveUsage (paretoScan roster injuries)) q
                  (Hnonzero q Hq Hqa)) as (m & Hm & _).
      { intros H0. rewrite H0 in HA. exact (Qlt_irrefl 0 HA). }
      exists m. rewrite Hlook, Hm. reflexivity.
    + exists 1. apply pareto_lookup_active_plain; assumption.
Qed.

(** In the exact arithmetic of the model the usage is conserved exactly,
    and every active player has the multiplier one plus the missing usage
    over the active usage. *)
Lemma usage_conserved_exact (roster : list PlayerData) (injuries : list Injury.t) :
  (forall p, In p roster -> 0 <= usage p) ->
  (0 < Spec.missingCoreUsage roster injuries ->
     0 < Spec.activeUsage roster injuries /\
     forall p, In p roster -> Spec.active injuries p = true -> ~ usage p == 0) ->
  (exists total : Q,
     Spec.redistributedUsage roster injuries = Fin total /\
     total == Spec.totalUsage roster - Spec.nonCoreUnavailableUsage roster injuries) /\
  (0 < Spec.missingCoreUsage roster injuries ->
     forall p, In p roster -> Spec.active injuries p = true ->
       exists m : Q,
         calculateParetoAdjustment roster injuries !! id p = Some (Fin m) /\
         usage p * m ==
         usage p + Spec.missingCoreUsage roster injuries *
                   (usage p / Spec.activeUsage roster injuries)).
Proof.
  intros Hnonneg Hreceivers.
  pose proof (paretoScan_totalMissingUsage roster injuries) as HM.
  pose proof (paretoScan_totalActiveUsage roster injuries) as HA.
  pose proof (missingCoreUsage_nonneg roster injuries Hnonneg) as HM0.
  pose proof (usage_partition roster injuries) as Hpart.
  set (M := totalMissingUsage (paretoScan roster injuries)) in *.
  set (A := totalActiveUsage (paretoScan roster injuries)) in *.
  destruct (Qltb 0 M && Qltb 0 A) eqn:Hcond.
  - (* the missing usage is redistributed *)
    apply andb_true_iff in Hcond. destruct Hcond as [HMpos HApos].
    apply Qltb_lt in HMpos, HApos.
    assert (Hmissing : 0 < Spec.missingCoreUsage roster injuries)
      by (rewrite <- HM; exact HMpos).
    destruct (Hreceivers Hmissing) as [Hactive Hnonzero].
    assert (HAnz : ~ A == 0) by lra.
    assert (Hentry : forall p, In p roster -> Spec.active injuries p = true ->
              exists m, calculateParetoAdjustment roster injuries !! id p = Some (Fin m)
                        /\ m == 1 + M / A).
    { intros p Hp Hpa.
      destruct (pareto_lookup_active_redistributed roster injuries p Hp Hpa)
        as (q & Hq & Hqa & _ & Hlook).
      { fold M A. apply andb_true_iff. split; apply Qltb_lt; assumption. }
      fold M A in Hlook.
      destruct (newMultiplier_value M A q (Hnonzero q Hq Hqa) HAnz) as (m & Hm & Hval).
      exists m. rewrite Hlook, Hm. auto. }
    split.
    + destruct (nsum_scaled (List.filter (Spec.active injuries) roster)
                  (fun p => nmul (Fin (usage p))
                     (Spec.multiplierOf (calculateParetoAdjustment roster injuries) p))
                  (1 + M / A)) as (total & Htotal & Hval).
      { intros p Hp. apply filter_In in Hp. destruct Hp as [Hp Hpa].
        destruct (Hentry p Hp Hpa) as (m & Hlook & Hm).
        exists (usage p * m). unfold Spec.multiplierOf. rewrite Hlook. simpl.
        split; [reflexivity |]. rewrite Hm. reflexivity. }
      exists total. split; [exact Htotal |].
      rewrite Hval, Hpart. fold (Spec.activeUsage roster injuries).
      rewrite <- HA, <- HM. field. exact HAnz.
    + intros _ p Hp Hpa. destruct (Hentry p Hp Hpa) as (m & Hlook & Hm).
      exists m. split; [exact Hlook |].
      rewrite Hm, <- HA, <- HM. field. exact HAnz.
  - (* nothing is redistributed: no usage is missing *)
    assert (Hnone : Spec.missingCoreUsage roster injuries == 0).
    { destruct (Qlt_le_dec 0 (Spec.missingCoreUsage roster injuries)) as [Hpos|Hle];
        [| lra].
      exfalso. destruct (Hreceivers Hpos) as [Hactive _].
      apply andb_false_iff in Hcond. destruct Hcond as [Hc|Hc];
        apply Qltb_ge in Hc; lra. }
    split.
    + destruct (nsum_scaled (List.filter (Spec.active injuries) roster)
                  (fun p => nmul (Fin (usage p))
                     (Spec.multiplierOf (calculateParetoAdjustment roster injuries) p))
                  1) as (total & Htotal & Hval).
      { intros p Hp. apply filter_In in Hp. destruct Hp as [Hp Hpa].
        exists (usage p * 1). unfold Spec.multiplierOf.
        rewrite (pareto_lookup_active_plain roster injuries p Hp Hpa Hcond).
        split; reflexivity. }
      exists total. split; [exact Htotal |].
      rewrite Hval, Hpart. fold (Spec.activeUsage roster injuries).
      rewrite Hnone. ring.
    + intros Hpos. exfalso. lra.
Qed.

(** C2, as the code has it. Take a roster with usage shares that are not
    negative. If, whenever usage of an unavailable core player is missing,
    the active players have usage to receive it (their total usage is
    positive and none of them has usage 0), then the sum over the active
    players of usage times multiplier is, to the tolerance 1e-6, the usage
    of the whole roster minus the usage of the unavailable players outside
    the core, and the missing usage goes to each active player in
    proportion to the player's share of the active usage, to the same
    tolerance. When the active players have no usage in total, nothing is
    reallocated: every player of the roster keeps the default multiplier,
    0 when unavailable and 1 when active. *)
Theorem C2_usage_conserved (roster : list PlayerData) (injuries : list Injury.t) :
  (forall p, In p roster -> 0 <= usage p) ->
  let missing := Spec.missingCoreUsage roster injuries in
  let receiving := Spec.activeUsage roster injuries in
  ((0 < missing ->
      0 < receiving /\
      forall p, In p roster -> Spec.active injuries p = true -> ~ usage p == 0) ->
   Spec.approx 0.000001 (Spec.redistributedUsage roster injuries)
     (Fin (Spec.totalUsage roster - Spec.nonCoreUnavailableUsage roster injuries)) /\
   (0 < missing ->
      forall p, In p roster -> Spec.active injuries p = true ->
        exists m : Q,
          calculateParetoAdjustment roster injuries !! id p = Some (Fin m) /\
          Qabs (usage p * m - (usage p + missing * (usage p / receiving)))
            <= 0.000001)) /\
  (receiving == 0 ->
     forall p, In p roster ->
       calculateParetoAdjustment roster injuries !! id p =
       Some (Fin (if Spec.unavailable injuries p then 0 else 1))).
Proof.
  intros Hnonneg. cbv zeta. split.
  - intros Hreceivers.
    destruct (usage_conserved_exact roster injuries Hnonneg Hreceivers)
      as [(total & Htotal & Hval) Hshare].
    split.
    + rewrite Htotal. unfold Spec.approx.
      assert (Hzero : total - (Spec.totalUsage roster -
                Spec.nonCoreUnavailableUsage roster injuries) == 0)
        by (rewrite Hval; ring).
      rewrite Hzero. discriminate.
    + intros Hmissing p Hp Hpa.
      destruct (Hshare Hmissing p Hp Hpa) as (m & Hlook & Hm).
      exists m. split; [exact Hlook |].
      assert (Hzero : usage p * m -
                (usage p + Spec.missingCoreUsage roster injuries *
                   (usage p / Spec.activeUsage roster injuries)) == 0)
        by (rewrite Hm; ring).
      rewrite Hzero. discriminate.
  - intros Hnone p Hp.
    apply (proj1 (proj2 pareto_degenerate_rosters)); [| exact Hp].
    rewrite Hnone. apply Qle_refl.
Qed.

(** C2 as the specification words it fails when nobody can receive the
    missing usage: with the star out and the other player day-to-day, no
    player is active, the sum over the active players is 0, and the usage
    of the roster minus that of the unavailable player outside the core is
    0.3. *)
Lemma C2_no_receiver :
  let injuries := [Sample.report "star" Injury.Out;
                   Sample.report "second" Injury.DayToDay] in
  Spec.redistributedUsage Sample.duo injuries = Fin 0 /\
  Spec.totalUsage Sample.duo - Spec.nonCoreUnavailableUsage Sample.duo injuries == 0.3 /\
  ~ Spec.approx 0.000001 (Spec.redistributedUsage Sample.duo injuries)
      (Fin (Spec.totalUsage Sample.duo -
            Spec.nonCoreUnavailableUsage Sample.duo injuries)).
Proof.
  split; [reflexivity |]. split; [reflexivity |].
  vm_compute. intros H. apply H. reflexivity.
Qed.

(** Scenario B: the star is out, the other player receives all of the
    missing usage; with the other player day-to-day as well, nobody
    receives it and the default multipliers stay. *)
Lemma C2_usage_conserved_witness :
  let injuries := [Sample.report "star" Injury.Out] in
  let nobody := [Sample.report "star" Injury.Out;
                 Sample.report "second" Injury.DayToDay] in
  (forall p, In p Sample.duo -> 0 <= usage p) /\
  0 < Spec.missingCoreUsage Sample.duo injuries /\
  0 < Spec.activeUsage Sample.duo injuries /\
  Spec.totalUsage Sample.duo - Spec.nonCoreUnavailableUsage Sample.duo injuries == 0.5 /\
  Spec.approx 0.000001 (Spec.redistributedUsage Sample.duo injuries)
    (Fin (Spec.totalUsage Sample.duo -
          Spec.nonCoreUnavailableUsage Sample.duo injuries)) /\
  Spec.activeUsage Sample.duo nobody == 0 /\
  calculateParetoAdjustment Sample.duo nobody !! "second" = Some (Fin 0).
Proof.
  intros injuries nobody.
  assert (Hnonneg : forall p, In p Sample.duo -> 0 <= usage p).
  { intros p [<-|[<-|[]]]; discriminate. }
  assert (Hreceivers : 0 < Spec.missingCoreUsage Sample.duo injuries ->
            0 < Spec.activeUsage Sample.duo injuries /\
            forall p, In p Sample.duo -> Spec.active injuries p = true ->
                      ~ usage p == 0).
  { intros _. split; [reflexivity |].
    intros p [<-|[<-|[]]] Hactive; [discriminate Hactive | discriminate]. }
  assert (Hnone : Spec.activeUsage Sample.duo nobody == 0) by reflexivity.
  split; [exact Hnonneg |]. split; [reflexivity |]. split; [reflexivity |].
  split; [reflexivity |].
  split; [exact (proj1 (proj1 (C2_usage_conserved Sample.duo injuries Hnonneg)
                          Hreceivers)) |].
  split; [exact Hnone |].
  exact (proj2 (C2_usage_conserved Sample.duo nobody Hnonneg) Hnone Sample.second
           (or_intror (or_introl eq_refl))).
Defined.

(** C8 fails on the code. The usage shares of this roster are in [0, 1];
    the star is out, so that the usage 0.30 of the core is redistributed
    over the total active usage 0.20; the rookie is active with usage 0,
    and the multiplier of the rookie is [(0 + 0.30 * (0 / 0.20)) / 0],
    which is NaN. *)
Theorem C8_zero_usage_multiplier_is_NaN :
  let injuries := [Sample.report "star" Injury.Out] in
  (forall p, In p Sample.trio -> 0 <= usage p <= 1) /\
  Spec.active injuries Sample.rookie = true /\
  usage Sample.rookie == 0 /\
  calculateParetoAdjustment Sample.trio injuries !! id Sample.rookie = Some NaN /\
  ~ Spec.finite
      (Spec.multiplierOf (calculateParetoAdjustment Sample.trio injuries) Sample.rookie).
Proof.
  intros injuries. split.
  - intros p [<-|[<-|[<-|[]]]]; split; discriminate.
  - split; [reflexivity |]. split; [reflexivity |].
    split; [reflexivity |]. vm_compute. intros H. exact H.
Qed.

(** *** The order of the roster by usage *)

Lemma insertByUsage_perm (x : PlayerData) (l : list PlayerData) :
  Permutation (x :: l) (insertByUsage x l).
Proof.
  induction l as [|y l IH]; simpl; [reflexivity |].
  destruct (Qltb (usage x) (usage y)); [| reflexivity].
  rewrite perm_swap. apply perm_skip. exact IH.
Qed.

Lemma sortByUsage_perm (roster : list PlayerData) :
  Permutation roster (sortByUsage roster).
Proof.
  induction roster as [|x roster IH]; simpl; [reflexivity |].
  rewrite <- insertByUsage_perm. apply perm_skip. exact IH.
Qed.

Lemma insertByUsage_sorted (x : PlayerData) (l : list PlayerData) :
  StronglySorted (fun a b => usage b <= usage a) l ->
  StronglySorted (fun a b => usage b <= usage a) (insertByUsage x l).
Proof.
  induction l as [|y l IH]; intros Hsorted; simpl.
  - constructor; constructor.
  - apply StronglySorted_inv in Hsorted. destruct Hsorted as [Hl Hy].
    destruct (Qltb (usage x) (usage y)) eqn:Hcmp.
    + apply Qltb_lt in Hcmp. constructor; [apply IH, Hl |].
      rewrite <- (Permutation_Forall (insertByUsage_perm x l)).
      constructor; [apply Qlt_le_weak, Hcmp | exact Hy].
    + apply Qltb_ge in Hcmp. constructor; [constructor; assumption |].
      constructor; [exact Hcmp |].
      eapply Forall_impl; [exact Hy |]. intros z Hz. simpl in Hz.
      apply Qle_trans with (usage y); assumption.
Qed.

(** [sortByUsage] lists the players of the roster by descending usage, so
    that its first three players are three players of highest usage. *)
Lemma sortByUsage_descending (roster : list PlayerData) :
  StronglySorted (fun a b => usage b <= usage a) (sortByUsage roster).
Proof.
  induction roster as [|x roster IH]; simpl; [constructor |].
  apply insertByUsage_sorted, IH.
Qed.

(** *** The efficiency penalty *)

Lemma hasParetoPlayerOut_spec (roster : list PlayerData) (injuries : list Injury.t) :
  hasParetoPlayerOut roster injuries = true <->
  exists mate, In mate (firstn 3 (sortByUsage roster)) /\
    Spec.statusOf injuries (id mate) = Some Injury.Out.
Proof.
  unfold hasParetoPlayerOut. destruct roster as [|p roster].
  - simpl. split; [discriminate | intros (mate & [] & _)].
  - change (length (p :: roster) =? 0)%nat with false. cbv iota zeta.
    rewrite existsb_exists. split; intros (mate & Hin & Hout); exists mate;
      (split; [exact Hin | apply isStatusOut_statusOf, Hout]).
Qed.



(** *** The redistribution step *)


(** An unavailable player, in the roster or not, has the volume
    multiplier 1.0: the entry is 0 or missing. *)
Lemma volumeMultiplierOf_unavailable (player : PlayerData)
    (teamRoster : list PlayerData) (injuries : list Injury.t) :
  Spec.unavailable injuries player = true ->
  (calculateParetoAdjustment teamRoster injuries !! id player = Some (Fin 0) \/
   calculateParetoAdjustment teamRoster injuries !! id player = None) /\
  volumeMultiplierOf player teamRoster injuries = Fin 1.0.
Proof.
  intros Hout.
  assert (Hentry := pareto_lookup_unavailable teamRoster injuries player Hout).
  unfold volumeMultiplierOf. rewrite Hentry.
  destruct (existsb _ teamRoster); split; auto.
Qed.

(** The confidence of a day-to-day player is 65, or 55 on a back-to-back:
    the deductions of 15 and of 20 never meet, and the lower bound 40 of
    the three deductions together is not attained. *)
Lemma confidence_at_least_55 (player : PlayerData)
    (opponentDefense : option TeamDefenseStats) (injuries : list Injury.t)
    (teamRoster : list PlayerData) (isB2B : bool) (line : option Q) :
  Spec.statusOf injuries (id player) <> Some Injury.Out ->
  (55 <= confidence
           (calculatePlayerProjection player opponentDefense injuries teamRoster
              isB2B line))%Z.
Proof.
  intros Hgate.
  assert (Hgate' := Hgate). rewrite <- isStatusOut_statusOf in Hgate'.
  apply not_true_is_false in Hgate'.
  unfold calculatePlayerProjection. rewrite Hgate'. cbn [confidence].
  unfold confidenceScore.
  destruct (isDayToDay (findInjury injuries (id player))) eqn:Hdtd.
  - apply isDayToDay_statusOf in Hdtd.
    assert (Hout : Spec.unavailable injuries player = true)
      by (unfold Spec.unavailable; rewrite Hdtd; reflexivity).
    destruct (volumeMultiplierOf_unavailable player teamRoster injuries Hout) as [_ ->].
    destruct isB2B; discriminate.
  - destruct isB2B, (ngt (volumeMultiplierOf player teamRoster injuries) (Fin 1.2));
      discriminate.
Qed.




(** *** The mapping of multipliers, entry by entry *)

(** The entry of an id, in every case: none for an id that is not in the
    roster, 0 for an unavailable player, 1 for an active player when
    nothing is redistributed, and the multiplier computed for an active
    player of that id otherwise. *)
Lemma pareto_lookup_cases (roster : list PlayerData) (injuries : list Injury.t)
    (k : string) :
  let entry := calculateParetoAdjustment roster injuries !! k in
  let missing := totalMissingUsage (paretoScan roster injuries) in
  let total := totalActiveUsage (paretoScan roster injuries) in
  ((forall p, In p roster -> id p <> k) /\ entry = None) \/
  ((exists p, In p roster /\ id p = k) /\
     isOut (findInjury injuries k) = true /\ entry = Some (Fin 0)) \/
  ((exists p, In p roster /\ id p = k) /\
     isOut (findInjury injuries k) = false /\
     Qltb 0 missing && Qltb 0 total = false /\ entry = Some (Fin 1)) \/
  (isOut (findInjury injuries k) = false /\
     Qltb 0 missing && Qltb 0 total = true /\
     exists q, In q roster /\ id q = k /\ entry = Some (newMultiplier missing total q)).
Proof.
  cbv zeta. pose (dummy := Sample.mkPlayer k 0 0).
  assert (Hdummy : Spec.unavailable injuries dummy = isOut (findInjury injuries k))
    by (symmetry; apply (isOut_unavailable injuries dummy)).
  assert (Hsame : forall p, id p = k ->
            Spec.unavailable injuries p = isOut (findInjury injuries k)).
  { intros p Hp. rewrite <- Hdummy. apply unavailable_same_id. exact Hp. }
  assert (Hexists : forall l, existsb (fun p => String.eqb (id p) k) l = true <->
            exists p, In p l /\ id p = k).
  { intros l. rewrite existsb_exists. split; intros (p & Hp & Hid); exists p;
      (split; [exact Hp |]); apply String.eqb_eq; exact Hid. }
  assert (Hscan := paretoScan_adjustments roster injuries dummy).
  change (id dummy) with k in Hscan. rewrite Hdummy in Hscan.
  assert (Hrest : adjustments (paretoScan roster injuries) !! k = None /\
                    (forall p, In p roster -> id p <> k) \/
                  (exists p, In p roster /\ id p = k) /\
                    adjustments (paretoScan roster injuries) !! k =
                    Some (Fin (if isOut (findInjury injuries k) then 0 else 1))).
  { destruct (existsb (fun p => String.eqb (id p) k) roster) eqn:Hex.
    - right. split; [apply Hexists, Hex | exact Hscan].
    - left. split; [exact Hscan |]. intros p Hp Hid.
      assert (Htrue : existsb (fun p => String.eqb (id p) k) roster = true)
        by (apply Hexists; exists p; auto).
      rewrite Htrue in Hex. discriminate Hex. }
  unfold calculateParetoAdjustment.
  destruct roster as [|p0 roster0]; [left; split; [intros p [] | apply lookup_empty] |].
  set (roster := p0 :: roster0) in *. change (length roster =? 0)%nat with false.
  cbv iota zeta.
  destruct (Qltb 0 (totalMissingUsage (paretoScan roster injuries)) &&
            Qltb 0 (totalActiveUsage (paretoScan roster injuries))) eqn:Hcond.
  - rewrite paretoScan_activePlayers.
    set (f := newMultiplier _ _).
    destruct (redistribute_lookup f (List.filter (Spec.active injuries) roster)
                (adjustments (paretoScan roster injuries)) k)
      as [(q & Hq & Hid & Hlook) | [Hnone Hlook]].
    + apply filter_In in Hq. destruct Hq as [Hq Hqa].
      right. right. right. split; [| split; [reflexivity |]].
      * unfold Spec.active in Hqa. apply negb_true_iff in Hqa.
        rewrite <- (Hsame q Hid). exact Hqa.
      * exists q. auto.
    + rewrite Hlook. destruct Hrest as [[Hnone' Hall] | [Hsome Hentry]].
      * left. auto.
      * destruct (isOut (findInjury injuries k)) eqn:Hout.
        -- right. left. auto.
        -- exfalso. destruct Hsome as (p & Hp & Hid).
           apply (Hnone p); [| exact Hid]. apply filter_In. split; [exact Hp |].
           unfold Spec.active. rewrite (Hsame p Hid). reflexivity.
  - destruct Hrest as [[Hnone Hall] | [Hsome Hentry]]; [left; auto |].
    destruct (isOut (findInjury injuries k)) eqn:Hout.
    + right. left. auto.
    + right. right. left. auto.
Qed.

(** With a total active usage that is not 0, the multiplier of a player
    of usage 0 is NaN, and the one of any other player is [1 + missing /
    total]: never an infinity. *)
Lemma newMultiplier_zero_usage (missing total : Q) (p : PlayerData) :
  usage p == 0 -> ~ total == 0 -> newMultiplier missing total p = NaN.
Proof.
  intros Hu Ht. unfold newMultiplier, ndiv.
  apply Qis0_false in Ht. rewrite Ht. cbn [nmul nadd].
  assert (Hnum : Qis0 (usage p + missing * (usage p / total)) = true).
  { apply Qis0_true. rewrite Hu. unfold Qdiv. ring. }
  apply Qis0_true in Hu. rewrite Hu, Hnum. reflexivity.
Qed.

(** X1. The mapping has an entry exactly for the ids of the roster. *)
Theorem pareto_entries_are_the_roster (roster : list PlayerData)
    (injuries : list Injury.t) (k : string) :
  is_Some (calculateParetoAdjustment roster injuries !! k) <->
  exists p, In p roster /\ id p = k.
Proof.
  destruct (pareto_lookup_cases roster injuries k)
    as [[Hnone ->] | [(Hsome & _ & ->) | [(Hsome & _ & _ & ->) | (_ & _ & q & Hq & Hid & ->)]]].
  - split; [intros [m Hm]; discriminate Hm |].
    intros (p & Hp & Hid). destruct (Hnone p Hp Hid).
  - split; [intros _; exact Hsome | intros _; eexists; reflexivity].
  - split; [intros _; exact Hsome | intros _; eexists; reflexivity].
  - split; [intros _; exists q; auto | intros _; eexists; reflexivity].
Qed.

(** X2. An entry of the mapping is 0 (an unavailable player), 1, a number
    above 1, or NaN; it is never an infinity. It is above 1 or NaN only
    when usage is redistributed, that is, when both the usage of the
    unavailable core players and the usage of the active players are
    above 0; and it is NaN only when, besides, an active player of that id
    has usage 0. *)
Theorem pareto_entry_shape (roster : list PlayerData) (injuries : list Injury.t)
    (k : string) (m : number) :
  calculateParetoAdjustment roster injuries !! k = Some m ->
  let redistributed :=
    0 < Spec.missingCoreUsage roster injuries /\
    0 < Spec.activeUsage roster injuries in
  (m = Fin 0 /\ isOut (findInjury injuries k) = true) \/
  (m = Fin 1 /\ isOut (findInjury injuries k) = false) \/
  (exists x, m = Fin x /\ 1 < x /\ isOut (findInjury injuries k) = false /\
     redistributed) \/
  (m = NaN /\ redistributed /\
     exists q, In q roster /\ id q = k /\ usage q == 0 /\
       Spec.active injuries q = true).
Proof.
  intros Hentry. cbv zeta.
  destruct (pareto_lookup_cases roster injuries k)
    as [[_ Hnone] | [(_ & Hout & Hm) | [(_ & Hout & _ & Hm) | (Hout & Hcond & q & Hq & Hid & Hm)]]];
    rewrite Hentry in *.
  - discriminate Hnone.
  - left. injection Hm as ->. auto.
  - right. left. injection Hm as ->. auto.
  - injection Hm as ->.
    apply andb_true_iff in Hcond. destruct Hcond as [HM HA].
    apply Qltb_lt in HM, HA.
    assert (Hredistributed : 0 < Spec.missingCoreUsage roster injuries /\
                             0 < Spec.activeUsage roster injuries).
    { rewrite <- paretoScan_totalMissingUsage, <- paretoScan_totalActiveUsage.
      split; assumption. }
    set (M := totalMissingUsage (paretoScan roster injuries)) in *.
    set (A := totalActiveUsage (paretoScan roster injuries)) in *.
    assert (HAnz : ~ A == 0) by lra.
    destruct (Qeq_dec (usage q) 0) as [Hzero|Hnz].
    + right. right. right. split; [apply newMultiplier_zero_usage; assumption |].
      split; [exact Hredistributed |].
      exists q. split; [exact Hq |]. split; [exact Hid |]. split; [exact Hzero |].
      unfold Spec.active. rewrite <- isOut_unavailable, Hid, Hout. reflexivity.
    + right. right. left.
      destruct (newMultiplier_value M A q Hnz HAnz) as (x & Hx & Hval).
      exists x. split; [exact Hx |]. split; [| split; [exact Hout | exact Hredistributed]].
      rewrite Hval. assert (0 < M / A) by (apply Qlt_shift_div_l; lra). lra.
Qed.

(** The second player of the sample trio with the star out. *)
Lemma pareto_entry_shape_witness :
  let injuries := [Sample.report "star" Injury.Out] in
  exists x, calculateParetoAdjustment Sample.trio injuries !! "second" = Some (Fin x) /\
    1 < x.
Proof.
  intros injuries.
  assert (Hentry : calculateParetoAdjustment Sample.trio injuries !! "second" =
                   Some (Fin (1000000000 # 400000000))) by reflexivity.
  destruct (pareto_entry_shape Sample.trio injuries "second" _ Hentry)
    as [[H _] | [[H _] | [(x & Hx & Hlt & _) | [H _]]]]; try discriminate H.
  exists x. split; [rewrite Hentry, Hx; reflexivity | exact Hlt].
Defined.

(** X3. When no active player has usage 0, all active players of the
    roster have, to the tolerance 1e-6, one common multiplier, which is at
    least 1: one plus the missing usage over the active usage, above 1,
    when the usage of the core is redistributed (both the usage of the
    unavailable core players and the usage of the active players are above
    0), and 1 otherwise. *)
Theorem pareto_common_multiplier (roster : list PlayerData) (injuries : list Injury.t) :
  (forall p, In p roster -> Spec.active injuries p = true -> ~ usage p == 0) ->
  let missing := Spec.missingCoreUsage roster injuries in
  let receiving := Spec.activeUsage roster injuries in
  exists common : Q,
    1 <= common /\
    (0 < missing /\ 0 < receiving ->
       common == 1 + missing / receiving /\ 1 < common) /\
    (~ (0 < missing /\ 0 < receiving) -> common == 1) /\
    forall p, In p roster -> Spec.active injuries p = true ->
      exists x, calculateParetoAdjustment roster injuries !! id p = Some (Fin x) /\
        Qabs (x - common) <= 0.000001.
Proof.
  intros Hnonzero. cbv zeta.
  pose proof (paretoScan_totalMissingUsage roster injuries) as HM.
  pose proof (paretoScan_totalActiveUsage roster injuries) as HA.
  set (M := totalMissingUsage (paretoScan roster injuries)) in *.
  set (A := totalActiveUsage (paretoScan roster injuries)) in *.
  destruct (Qltb 0 M && Qltb 0 A) eqn:Hcond.
  - pose proof Hcond as Hcond'.
    apply andb_true_iff in Hcond'. destruct Hcond' as [HMpos HApos].
    apply Qltb_lt in HMpos, HApos.
    assert (HAnz : ~ A == 0) by lra.
    assert (Hratio : 0 < M / A) by (apply Qlt_shift_div_l; lra).
    exists (1 + M / A). split; [lra |]. split; [| split].
    + intros _. split; [rewrite HM, HA; reflexivity | lra].
    + intros Hnot. exfalso. apply Hnot. rewrite <- HM, <- HA. auto.
    + intros p Hp Hpa.
      destruct (pareto_lookup_active_redistributed roster injuries p Hp Hpa Hcond)
        as (q & Hq & Hqa & _ & Hlook).
      fold M A in Hlook.
      destruct (newMultiplier_value M A q (Hnonzero q Hq Hqa) HAnz) as (x & Hx & Hval).
      exists x. rewrite Hlook, Hx. split; [reflexivity |].
      assert (Hzero : x - (1 + M / A) == 0) by (rewrite Hval; ring).
      rewrite Hzero. discriminate.
  - exists 1. split; [discriminate |]. split; [| split].
    + intros [HMpos HApos]. exfalso. rewrite <- HM in HMpos. rewrite <- HA in HApos.
      apply Qltb_lt in HMpos, HApos. rewrite HMpos, HApos in Hcond. discriminate Hcond.
    + intros _. reflexivity.
    + intros p Hp Hpa. exists 1.
      split; [apply pareto_lookup_active_plain; assumption | discriminate].
Qed.

(** The sample duo with the star out: the second player is the only
    active player, with the multiplier 2.5. *)
Lemma pareto_common_multiplier_witness :
  let injuries := [Sample.report "star" Injury.Out] in
  exists common : Q,
    1 < common /\
    exists x, calculateParetoAdjustment Sample.duo injuries !! "second" = Some (Fin x) /\
      Qabs (x - common) <= 0.000001.
Proof.
  intros injuries.
  assert (Hnonzero : forall p, In p Sample.duo -> Spec.active injuries p = true ->
                       ~ usage p == 0).
  { intros p [<-|[<-|[]]] Hactive; [discriminate Hactive | discriminate]. }
  destruct (pareto_common_multiplier Sample.duo injuries Hnonzero)
    as (common & _ & Hredistributed & _ & Hall).
  exists common. split; [apply Hredistributed; split; reflexivity |].
  apply (Hall Sample.second); [right; left; reflexivity | reflexivity].
Defined.

(** *** The projection is always finite *)

(** The volume multiplier of a player is a finite number, at least 1. *)
Lemma volumeMultiplierOf_finite (player : PlayerData) (teamRoster : list PlayerData)
    (injuries : list Injury.t) :
  exists v, volumeMultiplierOf player teamRoster injuries = Fin v /\ 1 <= v.
Proof.
  unfold volumeMultiplierOf.
  destruct (pareto_lookup_cases teamRoster injuries (id player))
    as [[_ Hm] | [(_ & _ & Hm) | [(_ & _ & _ & Hm) | (_ & Hcond & q & Hq & Hid & Hm)]]];
    cbv zeta in Hm; rewrite Hm.
  - exists 1.0. split; [reflexivity | discriminate].
  - exists 1.0. split; [reflexivity | discriminate].
  - exists 1. split; [reflexivity | discriminate].
  - apply andb_true_iff in Hcond. destruct Hcond as [HM HA].
    apply Qltb_lt in HM, HA.
    set (M := totalMissingUsage (paretoScan teamRoster injuries)) in *.
    set (A := totalActiveUsage (paretoScan teamRoster injuries)) in *.
    assert (HAnz : ~ A == 0) by lra.
    destruct (Qeq_dec (usage q) 0) as [Hzero|Hnz].
    + rewrite (newMultiplier_zero_usage M A q Hzero HAnz).
      exists 1.0. split; [reflexivity | discriminate].
    + destruct (newMultiplier_value M A q Hnz HAnz) as (x & -> & Hval).
      assert (Hratio : 0 < M / A) by (apply Qlt_shift_div_l; lra).
      assert (Hx : 1 < x) by (rewrite Hval; clearbody M A; lra).
      exists x. split; [| apply Qlt_le_weak, Hx].
      assert (Hnz' : Qis0 x = false) by (apply Qis0_false; lra).
      simpl. rewrite Hnz'. reflexivity.
Qed.

Lemma runningProjection_finite (player : PlayerData)
    (opponentDefense : option TeamDefenseStats) (injuries : list Injury.t)
    (teamRoster : list PlayerData) (isB2B : bool) :
  exists x,
    points (runningProjection player opponentDefense injuries teamRoster isB2B) = Fin x.
Proof.
  unfold runningProjection, afterEfficiencyPenalty, afterRedistribution,
    applyB2B, applyMatchup, applyEfficiencyPenalty, applyRedistribution.
  destruct (volumeMultiplierOf_finite player teamRoster injuries) as (v & -> & _).
  destruct (ngt (Fin v) (Fin 1.0)),
    (efficiencyPenaltyApplies player teamRoster injuries),
    (negb (Qeq_bool
             (modifier (calculateMatchupModifier (synergyStats player)
                          opponentDefense)) 1.0)),
    isB2B; eexists; reflexivity.
Qed.

Lemma edgeAgainst_finite (x : Q) (line : option Q) :
  exists e, edgeOf (edgeAgainst (Fin x) line) = Fin e.
Proof.
  unfold edgeAgainst. destruct line as [l|]; [| exists 0; reflexivity].
  cbn [truthy]. destruct (Qis0 l) eqn:Hz; [exists 0; reflexivity |].
  unfold calculateEdge. cbn [nle negb]. destruct (Qleb l 0); [exists 0; reflexivity |].
  cbn [nsub ndiv edgeOf]. rewrite Hz. cbn [nmul]. eexists. reflexivity.
Qed.

(** X4. [calculatePlayerProjection] returns finite numbers for every player,
    roster and injury list: the projected points and the edge are never
    NaN nor an infinity, also when the mapping of multipliers holds NaN for
    the player; and the volume multiplier that it applies is at least 1. *)
Theorem projection_always_finite (player : PlayerData)
    (opponentDefense : option TeamDefenseStats) (injuries : list Injury.t)
    (teamRoster : list PlayerData) (isB2B : bool) (line : option Q) :
  let result :=
    calculatePlayerProjection player opponentDefense injuries teamRoster isB2B line in
  Spec.finite (projectedPoints result) /\
  Spec.finite (edge result) /\
  exists v, volumeMultiplierOf player teamRoster injuries = Fin v /\ 1 <= v.
Proof.
  cbv zeta. split; [| split; [| apply volumeMultiplierOf_finite]].
  - unfold calculatePlayerProjection.
    destruct (isStatusOut (findInjury injuries (id player))); [exact I |].
    cbn [projectedPoints].
    destruct (runningProjection_finite player opponentDefense injuries teamRoster isB2B)
      as (x & ->).
    exact I.
  - unfold calculatePlayerProjection.
    destruct (isStatusOut (findInjury injuries (id player))); [exact I |].
    cbn [edge].
    destruct (runningProjection_finite player opponentDefense injuries teamRoster isB2B)
      as (x & ->).
    destruct (edgeAgainst_finite x line) as (e & ->). exact I.
Qed.

(** *** The efficiency penalty on the projection *)



(** *** The usage core and the three players of highest usage *)

Lemma firstn_In_le {A : Type} (x : A) (l : list A) (a b : nat) :
  (a <= b)%nat -> In x (firstn a l) -> In x (firstn b l).
Proof.
  revert a b. induction l as [|y l IH]; intros a b Hab Hin.
  - rewrite firstn_nil in Hin. destruct Hin.
  - destruct a as [|a]; [destruct Hin |]. destruct b as [|b]; [lia |].
    simpl in *. destruct Hin as [->|Hin]; [left; reflexivity |].
    right. apply (IH a b); [lia | exact Hin].
Qed.

Lemma top20Count_small (roster : list PlayerData) :
  (length roster <= 15)%nat -> (1 <= top20Count roster <= 3)%Z.
Proof.
  unfold top20Count. generalize (length roster) as n. intros n Hn.
  do 16 (destruct n as [|n]; [vm_compute; split; discriminate |]). lia.
Qed.

Lemma inCore_In (roster : list PlayerData) (q : PlayerData) :
  Spec.inCore roster q = true ->
  exists q', In q' (firstn (Z.to_nat (top20Count roster)) (sortByUsage roster)) /\
    id q' = id q.
Proof.
  rewrite <- paretoCore_inCore. unfold paretoCore. rewrite bool_decide_eq_true.
  rewrite elem_of_list_to_set. intros Hin.
  apply list_elem_of_In, in_map_iff in Hin. destruct Hin as (q' & Hid & Hq').
  exists q'. auto.
Qed.

(** X5. In a roster of at most 15 players the usage core has at most three
    players, so that a core player who is [Out] is one of the three
    players of highest usage: [hasParetoPlayerOut] holds, and every player
    without an injury report takes the efficiency penalty. *)
Theorem out_core_player_brings_penalty (roster : list PlayerData)
    (injuries : list Injury.t) (q : PlayerData) :
  (length roster <= 15)%nat ->
  Spec.inCore roster q = true ->
  Spec.statusOf injuries (id q) = Some Injury.Out ->
  hasParetoPlayerOut roster injuries = true /\
  forall player, findInjury injuries (id player) = None ->
    efficiencyPenaltyApplies player roster injuries = true.
Proof.
  intros Hsize Hcore Hout.
  assert (Hany : hasParetoPlayerOut roster injuries = true).
  { apply hasParetoPlayerOut_spec.
    destruct (inCore_In roster q Hcore) as (q' & Hq' & Hid).
    exists q'. split; [| rewrite Hid; exact Hout].
    apply (firstn_In_le q' _ (Z.to_nat (top20Count roster)) 3); [| exact Hq'].
    pose proof (top20Count_small roster Hsize). lia. }
  split; [exact Hany |].
  intros player Hnone. unfold efficiencyPenaltyApplies. rewrite Hany, Hnone. reflexivity.
Qed.

Lemma out_core_player_brings_penalty_witness :
  let injuries := [Sample.report "star" Injury.Out] in
  (length Sample.trio <= 15)%nat /\
  Spec.inCore Sample.trio Sample.star = true /\
  efficiencyPenaltyApplies Sample.rookie Sample.trio injuries = true.
Proof.
  intros injuries.
  assert (Hsize : (length Sample.trio <= 15)%nat) by (simpl; lia).
  assert (Hcore : Spec.inCore Sample.trio Sample.star = true) by reflexivity.
  assert (Hout : Spec.statusOf injuries (id Sample.star) = Some Injury.Out)
    by reflexivity.
  destruct (out_core_player_brings_penalty Sample.trio injuries Sample.star
              Hsize Hcore Hout) as [_ Hall].
  split; [exact Hsize |]. split; [exact Hcore |].
  apply Hall. reflexivity.
Defined.

(** X6. The usage core of a roster that is not empty holds a player of
    highest usage (the first one in roster order). *)
Theorem core_holds_top_usage (roster : list PlayerData) :
  roster <> [] ->
  exists p, In p roster /\ Spec.inCore roster p = true /\
    forall q, In q roster -> usage q <= usage p.
Proof.
  intros Hne.
  pose proof (sortByUsage_perm roster) as Hperm.
  pose proof (sortByUsage_descending roster) as Hsorted.
  destruct (sortByUsage roster) as [|p rest] eqn:Hsort.
  { apply Permutation_sym, Permutation_nil in Hperm. contradiction. }
  exists p. split; [| split].
  - apply (Permutation_in p (Permutation_sym Hperm)). left. reflexivity.
  - rewrite <- paretoCore_inCore. unfold paretoCore. apply bool_decide_eq_true.
    rewrite elem_of_list_to_set, Hsort. apply list_elem_of_In, in_map.
    assert (Hk : (1 <= top20Count roster)%Z) by (unfold top20Count; lia).
    destruct (Z.to_nat (top20Count roster)) as [|k] eqn:Hnat; [lia |].
    left. reflexivity.
  - intros q Hq. apply (Permutation_in q Hperm) in Hq.
    apply StronglySorted_inv in Hsorted. destruct Hsorted as [_ Hall].
    destruct Hq as [<-|Hq]; [apply Qle_refl |].
    rewrite Forall_forall in Hall. apply Hall. apply list_elem_of_In, Hq.
Qed.

Lemma core_holds_top_usage_witness :
  exists p, In p Sample.trio /\ Spec.inCore Sample.trio p = true /\
    forall q, In q Sample.trio -> usage q <= usage p.
Proof.
  assert (Hne : Sample.trio <> []) by discriminate.
  exact (core_holds_top_usage Sample.trio Hne).
Defined.

(** *** The confidence label *)

(** X7. The label of the confidence of a projection is never [LOW]. It is
    [HIGH] for a player gated as [Out]; for every other player it is
    [MEDIUM] exactly when the volume multiplier is above 1.2 or the report
    found for the player is day-to-day, and [HIGH] otherwise: a
    back-to-back game alone never lowers the label. *)
Theorem projection_label_high_or_medium (player : PlayerData)
    (opponentDefense : option TeamDefenseStats) (injuries : list Injury.t)
    (teamRoster : list PlayerData) (isB2B : bool) (line : option Q) :
  let result :=
    calculatePlayerProjection player opponentDefense injuries teamRoster isB2B line in
  let playerInjury := findInjury injuries (id player) in
  getConfidenceLabel (confidence result) <> LOW /\
  getConfidenceLabel (confidence result) =
    if isStatusOut playerInjury then HIGH
    else if ngt (volumeMultiplierOf player teamRoster injuries) (Fin 1.2)
            || isDayToDay playerInjury
         then MEDIUM else HIGH.
Proof.
  cbv zeta. unfold calculatePlayerProjection.
  destruct (isStatusOut (findInjury injuries (id player)));
    [split; [discriminate | reflexivity] |].
  cbn [confidence]. unfold confidenceScore.
  destruct (isDayToDay (findInjury injuries (id player))) eqn:Hdtd.
  - apply isDayToDay_statusOf in Hdtd.
    assert (Hout : Spec.unavailable injuries player = true)
      by (unfold Spec.unavailable; rewrite Hdtd; reflexivity).
    destruct (volumeMultiplierOf_unavailable player teamRoster injuries Hout) as [_ ->].
    destruct isB2B; (split; [vm_compute; discriminate | reflexivity]).
  - destruct isB2B, (ngt (volumeMultiplierOf player teamRoster injuries) (Fin 1.2));
      (split; [vm_compute; discriminate | reflexivity]).
Qed.

(** *** Decimal odds and implied probabilities *)

Lemma ratio_falls (c x y : Q) :
  0 < c -> 0 < x -> x <= y -> 0 < c / y /\ c / y <= c / x.
Proof.
  intros Hc Hx Hxy.
  assert (Hy : 0 < y) by lra.
  assert (Hix : 0 < / x) by (apply Qinv_lt_0_compat; exact Hx).
  assert (Hiy : 0 < / y) by (apply Qinv_lt_0_compat; exact Hy).
  assert (Hdiff : c / x - c / y == c * (y - x) * (/ x * / y)) by (field; split; lra).
  assert (Hprod : 0 <= c * (y - x) * (/ x * / y)).
  { apply Qmult_le_0_compat; [apply Qmult_le_0_compat; lra |].
    apply Qmult_le_0_compat; lra. }
  split; [unfold Qdiv; apply Qmult_lt_0_compat; assumption | lra].
Qed.

(** X8. [oddsToImpliedProbability] and [probabilityToFairOdds] return
    Infinity at 0, and each takes the Infinity of the other back to 0. On
    positive numbers both return a positive finite number and reverse the
    order: higher decimal odds never have a higher implied probability,
    and a higher probability never has higher fair odds. *)
Theorem odds_and_probability_order :
  oddsToImpliedProbability (Fin 0) = PInf /\
  probabilityToFairOdds (Fin 0) = PInf /\
  (exists z, oddsToImpliedProbability PInf = Fin z /\ z == 0) /\
  probabilityToFairOdds PInf = Fin 0 /\
  (forall x y : Q, 0 < x -> x <= y ->
     exists px py,
       oddsToImpliedProbability (Fin x) = Fin px /\
       oddsToImpliedProbability (Fin y) = Fin py /\
       0 < py /\ py <= px) /\
  (forall x y : Q, 0 < x -> x <= y ->
     exists ox oy,
       probabilityToFairOdds (Fin x) = Fin ox /\
       probabilityToFairOdds (Fin y) = Fin oy /\
       0 < oy /\ oy <= ox).
Proof.
  split; [reflexivity |]. split; [reflexivity |].
  split; [eexists; split; reflexivity |]. split; [reflexivity |].
  split; intros x y Hx Hxy.
  - assert (Hy : 0 < y) by lra.
    assert (Hnx : Qis0 x = false) by (apply Qis0_false; lra).
    assert (Hny : Qis0 y = false) by (apply Qis0_false; lra).
    unfold oddsToImpliedProbability. cbn [ndiv]. rewrite Hnx, Hny. cbn [nmul].
    exists (1 / x * 100), (1 / y * 100). split; [reflexivity |]. split; [reflexivity |].
    destruct (ratio_falls 1 x y) as [Hpos Hle]; [reflexivity | exact Hx | exact Hxy |].
    split; lra.
  - assert (Hy : 0 < y) by lra.
    assert (Hnx : Qis0 x = false) by (apply Qis0_false; lra).
    assert (Hny : Qis0 y = false) by (apply Qis0_false; lra).
    unfold probabilityToFairOdds. cbn [ndiv]. rewrite Hnx, Hny.
    exists (100 / x), (100 / y). split; [reflexivity |]. split; [reflexivity |].
    apply ratio_falls; [reflexivity | exact Hx | exact Hxy].
Qed.

(** Decimal odds of 2 and of 4: the implied probabilities 50 and 25. *)
Lemma odds_and_probability_order_witness :
  exists px py,
    oddsToImpliedProbability (Fin 2) = Fin px /\
    oddsToImpliedProbability (Fin 4) = Fin py /\
    0 < py /\ py <= px /\ px == 50.
Proof.
  assert (Hpos : 0 < 2) by reflexivity.
  assert (Hle : 2 <= 4) by discriminate.
  destruct (proj1 (proj2 (proj2 (proj2 (proj2 odds_and_probability_order))))
              2 4 Hpos Hle) as (px & py & Hpx & Hpy & Hlow & Hhigh).
  exists px, py. split; [exact Hpx |]. split; [exact Hpy |].
  split; [exact Hlow |]. split; [exact Hhigh |].
  assert (Hvalue : oddsToImpliedProbability (Fin 2) = Fin (1 / 2 * 100)) by reflexivity.
  rewrite Hvalue in Hpx. injection Hpx as <-. reflexivity.
Defined.

(** *** Rounding to one decimal *)

(** The rounded value of a rational depends on its value only. *)
Lemma Qround_fixed_comp (digits : nat) (x y : Q) :
  x == y -> Qround_fixed digits x = Qround_fixed digits y.
Proof.
  intros Hxy. unfold Qround_fixed, fixed_units, Qltb.
  assert (Hfloor : Qfloor (Qabs x * inject_Z (10 ^ Z.of_nat digits) + 0.5) =
                   Qfloor (Qabs y * inject_Z (10 ^ Z.of_nat digits) + 0.5))
    by (rewrite Hxy; reflexivity).
  assert (Hsign : Qle_bool 0 x = Qle_bool 0 y) by (rewrite Hxy; reflexivity).
  rewrite Hfloor, Hsign. reflexivity.
Qed.

(** *** The prop lines matched with the projections *)

Lemma findPointsProp_filter (props : list Odds.PlayerPropLine) (pid : string) :
  findPointsProp
    (List.filter
       (fun p => match Odds.market p with Odds.points => true | _ => false end) props)
    pid =
  findPointsProp props pid.
Proof.
  unfold findPointsProp. induction props as [|p props IH]; [reflexivity |].
  simpl. destruct (Odds.market p) eqn:Hmarket; simpl; rewrite ?Hmarket, ?IH;
    rewrite ?andb_false_r; reflexivity.
Qed.

(** X9. [matchProjectionsWithProps] keeps the projections in their order and
    never changes the player, the projected points, the confidence or the
    reason of a projection; a projection whose player has no points line
    comes back unchanged; and the result depends on the points lines only:
    the lines of the other markets can be removed without changing it. *)
Theorem match_reads_points_lines_only (projections : list ProjectionResult)
    (props : list Odds.PlayerPropLine) :
  Forall2
    (fun before after =>
       playerId after = playerId before /\
       playerName after = playerName before /\
       projectedPoints after = projectedPoints before /\
       confidence after = confidence before /\
       reason after = reason before /\
       (findPointsProp props (playerId before) = None -> after = before))
    projections (matchProjectionsWithProps projections props) /\
  matchProjectionsWithProps projections
    (List.filter
       (fun p => match Odds.market p with Odds.points => true | _ => false end) props) =
  matchProjectionsWithProps projections props.
Proof.
  split.
  - unfold matchProjectionsWithProps.
    induction projections as [|projection projections IH]; [constructor |].
    simpl. constructor; [| exact IH].
    unfold matchProjection.
    destruct (findPointsProp props (playerId projection)); [| repeat split; reflexivity].
    repeat split; try reflexivity. discriminate.
  - unfold matchProjectionsWithProps. apply map_ext. intros projection.
    unfold matchProjection. rewrite findPointsProp_filter. reflexivity.
Qed.

(** X10. Matching the same lines a second time changes nothing. *)
Theorem match_idempotent (projections : list ProjectionResult)
    (props : list Odds.PlayerPropLine) :
  matchProjectionsWithProps (matchProjectionsWithProps projections props) props =
  matchProjectionsWithProps projections props.
Proof.
  unfold matchProjectionsWithProps. rewrite map_map. apply map_ext.
  intros projection. unfold matchProjection at 2.
  destruct (findPointsProp props (playerId projection)) as [prop|] eqn:Hfind.
  - unfold matchProjection. cbn [playerId projectedPoints]. rewrite Hfind. reflexivity.
  - unfold matchProjection. rewrite Hfind. reflexivity.
Qed.

(** X11. The projection of a player gated as [Out], once matched with a
    points line above 0 for the player, no longer has the edge 0 of the
    gate: its edge is -100 per cent (a projection of 0 against the line),
    without the value-bet flag. *)
Theorem out_player_matched_edge (player : PlayerData)
    (opponentDefense : option TeamDefenseStats) (injuries : list Injury.t)
    (teamRoster : list PlayerData) (isB2B : bool) (line : option Q)
    (props : list Odds.PlayerPropLine) (prop : Odds.PlayerPropLine) :
  Spec.statusOf injuries (id player) = Some Injury.Out ->
  findPointsProp props (id player) = Some prop ->
  0 < Odds.line prop ->
  let matched :=
    matchProjection props
      (calculatePlayerProjection player opponentDefense injuries teamRoster isB2B line) in
  projectedPoints matched = Fin 0 /\
  (exists e, edge matched = Fin e /\ e == -100) /\
  isValueBet matched = false /\
  vegasLine matched = Some (Odds.line prop).
Proof.
  intros Hout Hfind Hline. apply isStatusOut_statusOf in Hout.
  cbv zeta. unfold calculatePlayerProjection. rewrite Hout.
  unfold matchProjection. cbn [playerId projectedPoints]. rewrite Hfind.
  cbn [projectedPoints edge isValueBet vegasLine].
  assert (Hnz : Qis0 (Odds.line prop) = false) by (apply Qis0_false; lra).
  assert (Hle : Qleb (Odds.line prop) 0 = false) by (apply Qleb_gt; exact Hline).
  assert (Hratio : (0 - Odds.line prop) / Odds.line prop == -1)
    by (field; apply Qis0_false; exact Hnz).
  unfold calculateEdge. cbn [nle nsub ndiv negb]. rewrite Hle. cbn [ndiv].
  rewrite Hnz. cbn [nmul edgeOf isValue nge nle round_fixed].
  split; [reflexivity |]. split; [| split; [| reflexivity]].
  - eexists. split; [reflexivity |].
    rewrite (Qround_fixed_comp 1 _ (-100)); [reflexivity |].
    rewrite Hratio. reflexivity.
  - apply Qleb_gt. rewrite Hratio. reflexivity.
Qed.

Lemma out_player_matched_edge_witness :
  let injuries := [Sample.report "star" Injury.Out] in
  let prop := {| Odds.playerId := "star"; Odds.market := Odds.points;
                 Odds.line := 26.5; Odds.bestOverOdd := None |} in
  exists e,
    edge (matchProjection [prop]
            (calculatePlayerProjection Sample.star None injuries Sample.duo false None))
    = Fin e /\ e == -100.
Proof.
  intros injuries prop.
  assert (Hout : Spec.statusOf injuries (id Sample.star) = Some Injury.Out)
    by reflexivity.
  assert (Hfind : findPointsProp [prop] (id Sample.star) = Some prop) by reflexivity.
  assert (Hline : 0 < Odds.line prop) by reflexivity.
  destruct (out_player_matched_edge Sample.star None injuries Sample.duo false None
              [prop] prop Hout Hfind Hline) as (_ & Hedge & _).
  exact Hedge.
Defined.

(** *** The direction of the matchup modifier *)

Lemma contribution_sign (defense : TeamDefenseStats) (pt : SynergyPlayType) :
  ((forall rank, Spec.opponentRank defense (playType pt) = Some rank -> (5 < rank)%Z) ->
   0 <= Spec.contribution defense pt) /\
  ((forall rank, Spec.opponentRank defense (playType pt) = Some rank -> (rank < 25)%Z) ->
   Spec.contribution defense pt <= 0).
Proof.
  unfold Spec.contribution.
  destruct (Qleb 0.15 (frequency pt)) eqn:Hfreq;
    [| split; intros _; apply Qle_refl].
  apply Qleb_le in Hfreq.
  destruct (Spec.opponentRank defense (playType pt)) as [rank|];
    [| split; intros _; apply Qle_refl].
  split; intros Hrank; specialize (Hrank rank eq_refl);
    destruct (Z.leb_spec 25 rank), (Z.leb_spec rank 5); try lia; lra.
Qed.

Lemma Qsum_map_sign {A : Type} (f : A -> Q) (l : list A) :
  ((forall x, In x l -> 0 <= f x) -> 0 <= Spec.Qsum (map f l)) /\
  ((forall x, In x l -> f x <= 0) -> Spec.Qsum (map f l) <= 0).
Proof.
  induction l as [|x l [IHpos IHneg]]; simpl; [split; intros _; apply Qle_refl |].
  split; intros Hall.
  - assert (0 <= f x) by (apply Hall; left; reflexivity).
    assert (0 <= Spec.Qsum (map f l)) by (apply IHpos; intros y Hy; apply Hall; auto).
    lra.
  - assert (f x <= 0) by (apply Hall; left; reflexivity).
    assert (Spec.Qsum (map f l) <= 0) by (apply IHneg; intros y Hy; apply Hall; auto).
    lra.
Qed.

(** X12. The direction of the matchup modifier: it is at least 1 when no
    play type of the player meets a rank of 5 or better, and at most 1
    when none meets a rank of 25 or worse; hence exactly 1 when all ranks
    met are between 6 and 24. *)
Theorem matchup_direction (synergy : PlayerSynergyStats) (defense : TeamDefenseStats) :
  let m := modifier (calculateMatchupModifier (Some synergy) (Some defense)) in
  ((forall pt rank, In pt (playTypes synergy) ->
      Spec.opponentRank defense (playType pt) = Some rank -> (5 < rank)%Z) ->
   1 <= m) /\
  ((forall pt rank, In pt (playTypes synergy) ->
      Spec.opponentRank defense (playType pt) = Some rank -> (rank < 25)%Z) ->
   m <= 1).
Proof.
  cbv zeta. unfold calculateMatchupModifier. cbn [modifier].
  rewrite fold_matchupStep_totalModifier. cbn [totalModifier].
  destruct (Qsum_map_sign (Spec.contribution defense) (playTypes synergy))
    as [Hpos Hneg].
  split; intros Hranks.
  - assert (0 <= Spec.Qsum (map (Spec.contribution defense) (playTypes synergy))).
    { apply Hpos. intros pt Hpt. apply contribution_sign.
      intros rank. apply Hranks, Hpt. }
    lra.
  - assert (Spec.Qsum (map (Spec.contribution defense) (playTypes synergy)) <= 0).
    { apply Hneg. intros pt Hpt. apply contribution_sign.
      intros rank. apply Hranks, Hpt. }
    lra.
Qed.

(** Isolation against rank 28 and post-up against rank 12: no elite rank
    is met. *)
Lemma matchup_direction_witness :
  let synergy :=
    {| playTypes := [ {| playType := "Isolation"; frequency := 0.25 |};
                      {| playType := "Postup"; frequency := 0.20 |} ] |} in
  let defense :=
    {| alias := "DEN";
       defenseRanks := {| iso := 28; pnr := 3; spotup := 10; transition := 15;
                          postup := 12; overall := 14 |} |} in
  1 <= modifier (calculateMatchupModifier (Some synergy) (Some defense)).
Proof.
  intros synergy defense.
  apply (proj1 (matchup_direction synergy defense)).
  intros pt rank [<-|[<-|[]]] [= <-]; reflexivity.
Defined.

(** *** The reasons of the matchup modifier *)

Lemma append_nonempty (a : string) (c : Ascii.ascii) (s : string) :
  a +:+ String c s <> "".
Proof. destruct a; simpl; discriminate. Qed.

Lemma join_nonempty (sep : string) (parts : list string) :
  parts <> [] -> Forall (fun s => s <> "") parts -> join sep parts <> "".
Proof.
  intros Hne Hall. destruct parts as [|s rest]; [contradiction |].
  apply Forall_cons_1 in Hall. destruct Hall as [Hs _].
  destruct s as [|c s]; [contradiction |].
  destruct rest; simpl; discriminate.
Qed.

(** The loop keeps a reason for every change of the running total: while
    there is no reason, the total is 0; and no reason is empty. *)
Lemma matchupStep_explained (defense : TeamDefenseStats) (acc : MatchupAcc)
    (pt : SynergyPlayType) :
  (reasons acc = [] -> totalModifier acc == 0) /\
  Forall (fun s => s <> "") (reasons acc) ->
  (reasons (matchupStep defense acc pt) = [] ->
   totalModifier (matchupStep defense acc pt) == 0) /\
  Forall (fun s => s <> "") (reasons (matchupStep defense acc pt)).
Proof.
  intros [Hzero Hall]. unfold matchupStep.
  destruct (playTypeToDefenseKey (playType pt)) as [key|]; [| auto].
  destruct (Qltb (frequency pt) 0.15); [auto |].
  destruct (rankAt (defenseRanks defense) key <=? ELITE_DEFENSE_RANK)%Z;
    [| destruct (rankAt (defenseRanks defense) key >=? WEAK_DEFENSE_RANK)%Z];
    cbn [reasons totalModifier].
  - split; [intros H; apply app_eq_nil in H; destruct H as [_ H]; discriminate H |].
    apply Forall_app. split; [exact Hall |].
    constructor; [apply append_nonempty | constructor].
  - split; [intros H; apply app_eq_nil in H; destruct H as [_ H]; discriminate H |].
    apply Forall_app. split; [exact Hall |].
    constructor; [discriminate | constructor].
  - auto.
Qed.

Lemma fold_matchupStep_explained (defense : TeamDefenseStats)
    (pts : list SynergyPlayType) (acc : MatchupAcc) :
  (reasons acc = [] -> totalModifier acc == 0) /\
  Forall (fun s => s <> "") (reasons acc) ->
  (reasons (fold_left (matchupStep defense) pts acc) = [] ->
   totalModifier (fold_left (matchupStep defense) pts acc) == 0) /\
  Forall (fun s => s <> "") (reasons (fold_left (matchupStep defense) pts acc)).
Proof.
  revert acc. induction pts as [|pt pts IH]; intros acc Hacc; [exact Hacc |].
  simpl. apply IH, matchupStep_explained, Hacc.
Qed.

(** X13. Step 5 of the projection explains every change: either it leaves
    the running projection and the reasons alone, or it multiplies the
    projection by the matchup modifier and appends the reason of the
    matchup, which is not empty then. *)
Theorem matchup_change_is_explained (synergy : option PlayerSynergyStats)
    (defense : option TeamDefenseStats) (r : Running) :
  let matchup := calculateMatchupModifier synergy defense in
  applyMatchup matchup r = r \/
  (matchupReason matchup <> "" /\
   points (applyMatchup matchup r) = nmul (points r) (Fin (modifier matchup)) /\
   why (applyMatchup matchup r) = why r ++ [matchupReason matchup]).
Proof.
  cbv zeta. unfold applyMatchup.
  destruct (Qeq_bool (modifier (calculateMatchupModifier synergy defense)) 1.0)
    eqn:Hone; [left; reflexivity |].
  right. cbn [negb points why].
  assert (Hreason : matchupReason (calculateMatchupModifier synergy defense) <> "").
  { unfold calculateMatchupModifier in *.
    destruct synergy as [s|]; [| discriminate Hone].
    destruct defense as [d|]; [| discriminate Hone].
    cbn [modifier matchupReason] in *.
    destruct (fold_matchupStep_explained d (playTypes s)
                {| totalModifier := 0; totalFrequency := 0; reasons := [] |})
      as [Hzero Hall].
    { split; [intros _; reflexivity | constructor]. }
    apply join_nonempty; [| exact Hall].
    intros Hnil. apply Hzero in Hnil.
    assert (Htrue : Qeq_bool
              (1 + totalModifier
                     (fold_left (matchupStep d) (playTypes s)
                        {| totalModifier := 0; totalFrequency := 0; reasons := [] |}))
              1.0 = true).
    { apply Qeq_bool_iff. rewrite Hnil. reflexivity. }
    rewrite Htrue in Hone. discriminate Hone. }
  split; [exact Hreason |]. split; [reflexivity |].
  destruct (String.eqb_spec (matchupReason (calculateMatchupModifier synergy defense)) "")
    as [Hempty|_]; [contradiction | reflexivity].
Qed.


(** *** The best odd of a line *)

Lemma fold_betterOdd_split (rest before after : list Odds.BookmakerOdd)
    (best : Odds.BookmakerOdd) :
  Forall (fun o => Odds.odds o < Odds.odds best) before ->
  Forall (fun o => Odds.odds o <= Odds.odds best) after ->
  exists before' after',
    before ++ best :: after ++ rest =
      before' ++ fold_left Odds.betterOdd rest best :: after' /\
    Forall (fun o => Odds.odds o < Odds.odds (fold_left Odds.betterOdd rest best))
      before' /\
    Forall (fun o => Odds.odds o <= Odds.odds (fold_left Odds.betterOdd rest best))
      after'.
Proof.
  revert before after best.
  induction rest as [|current rest IH]; intros before after best Hbefore Hafter.
  - exists before, after. rewrite app_nil_r. auto.
  - simpl. unfold Odds.betterOdd at 2 4 6.
    destruct (Qltb (Odds.odds best) (Odds.odds current)) eqn:Hcmp.
    + apply Qltb_lt in Hcmp.
      destruct (IH (before ++ best :: after) [] current) as (b & a & Heq & Hb & Ha).
      * apply Forall_app. split; [| constructor].
        -- eapply Forall_impl; [exact Hbefore |]. intros o Ho. simpl in Ho.
           apply Qlt_trans with (Odds.odds best); assumption.
        -- exact Hcmp.
        -- eapply Forall_impl; [exact Hafter |]. intros o Ho. simpl in Ho.
           apply Qle_lt_trans with (Odds.odds best); assumption.
      * constructor.
      * exists b, a. split; [| auto]. rewrite <- Heq. simpl.
        rewrite <- !app_assoc. reflexivity.
    + apply Qltb_ge in Hcmp.
      destruct (IH before (after ++ [current]) best Hbefore) as (b & a & Heq & Hb & Ha).
      * apply Forall_app. split; [exact Hafter |]. constructor; [exact Hcmp | constructor].
      * exists b, a. split; [| auto]. rewrite <- Heq.
        rewrite <- !app_assoc. reflexivity.
Qed.

(** X14. The best odd that [findBestOdd] returns is an odd of the list, the
    first one of the highest decimal odds: every odd before it in the list
    is strictly lower and every odd after it is lower or equal, so a tie
    goes to the bookmaker listed first. Only the empty list has no best
    odd. *)
Theorem best_odd_is_first_highest (offered : list Odds.BookmakerOdd) :
  offered <> [] ->
  exists best before after,
    Odds.findBestOdd offered = Some best /\
    offered = before ++ best :: after /\
    Forall (fun o => Odds.odds o < Odds.odds best) before /\
    Forall (fun o => Odds.odds o <= Odds.odds best) after.
Proof.
  intros Hne. destruct offered as [|first rest]; [contradiction |].
  destruct (fold_betterOdd_split rest [] [] first) as (b & a & Heq & Hb & Ha);
    [constructor | constructor |].
  exists (fold_left Odds.betterOdd rest first), b, a.
  split; [reflexivity |]. split; [exact Heq |]. split; assumption.
Qed.

(** Two bookmakers at the same highest odd: the first one is the best. *)
Lemma best_odd_is_first_highest_witness :
  let book (name : string) (n : Z) (o : Q) :=
    {| Odds.bookmaker := name; Odds.bookmakerId := n; Odds.odds := o;
       Odds.lastUpdated := "2024-12-06" |} in
  let offered := [book "A" 1%Z 1.80; book "B" 2%Z 1.95; book "C" 3%Z 1.95] in
  exists best, Odds.findBestOdd offered = Some best /\ Odds.bookmaker best = "B".
Proof.
  intros book offered.
  assert (Hne : offered <> []) by discriminate.
  destruct (best_odd_is_first_highest offered Hne) as (best & before & after & Hbest & _).
  exists best. split; [exact Hbest |].
  assert (Hfirst : Odds.findBestOdd offered = Some (book "B" 2%Z 1.95)) by reflexivity.
  rewrite Hfirst in Hbest. injection Hbest as <-. reflexivity.
Defined.

(** *** The scan of the daily pick *)

Import GameAnalysis.

Lemma checkStat_consider (p : TeamPlayerProjection) (stat : Stat)
    (bestProp : option BestProp) :
  checkStat p stat
    (bestEdge (PickSpec.candidate p stat))
    (bestProjection (PickSpec.candidate p stat))
    (bestLine (PickSpec.candidate p stat)) bestProp =
  PickSpec.consider bestProp (PickSpec.candidate p stat).
Proof.
  unfold checkStat, PickSpec.consider, PickSpec.qualifies, PROP_EDGE_THRESHOLD.
  destruct (Qleb 12 (Qabs (bestEdge (PickSpec.candidate p stat)))); [| reflexivity].
  destruct bestProp as [best|]; [| reflexivity].
  destruct (Qltb (Qabs (bestEdge best)) (Qabs (bestEdge (PickSpec.candidate p stat))));
    reflexivity.
Qed.

Lemma scanPlayer_consider (bestProp : option BestProp) (p : TeamPlayerProjection) :
  scanPlayer bestProp p =
  fold_left PickSpec.consider
    [PickSpec.candidate p points; PickSpec.candidate p assists;
     PickSpec.candidate p rebounds] bestProp.
Proof.
  unfold scanPlayer. cbv zeta. simpl fold_left.
  rewrite <- !checkStat_consider. reflexivity.
Qed.

Lemma findBestProp_scanned (all : list TeamPlayerProjection) :
  findBestProp all = fold_left PickSpec.consider (PickSpec.scanned all) None.
Proof.
  unfold findBestProp. generalize (@None BestProp) as bestProp.
  induction all as [|p all IH]; intros bestProp; [reflexivity |].
  cbn [fold_left]. rewrite IH, scanPlayer_consider.
  unfold PickSpec.scanned. cbn [flat_map]. rewrite fold_left_app. reflexivity.
Qed.

(** The loop keeps the first pair of the largest absolute edge among the
    qualifying pairs, and nothing when no pair qualifies. *)
Lemma consider_fold_spec (cands : list BestProp) :
  match fold_left PickSpec.consider cands None with
  | None => forall c, In c cands -> PickSpec.qualifies c = false
  | Some best => PickSpec.firstLargest cands best
  end.
Proof.
  induction cands as [|c cands IH] using rev_ind; [intros c [] |].
  rewrite fold_left_app. cbn [fold_left]. unfold PickSpec.consider at 1.
  destruct (PickSpec.qualifies c) eqn:Hc.
  - destruct (fold_left PickSpec.consider cands None) as [best|].
    + destruct IH as (before & after & Hsplit & Hbest & Hbefore & Hafter).
      destruct (Qltb (Qabs (bestEdge best)) (Qabs (bestEdge c))) eqn:Hcmp.
      * apply Qltb_lt in Hcmp. exists cands, []. split; [reflexivity |].
        split; [exact Hc |]. split; [| intros c' []].
        intros c' Hin Hq. rewrite Hsplit in Hin.
        apply in_app_or in Hin. destruct Hin as [Hin|[<-|Hin]].
        -- apply Qlt_trans with (Qabs (bestEdge best)); [apply Hbefore |]; assumption.
        -- exact Hcmp.
        -- apply Qle_lt_trans with (Qabs (bestEdge best)); [apply Hafter |]; assumption.
      * apply Qltb_ge in Hcmp. exists before, (after ++ [c]).
        split; [rewrite Hsplit, <- app_assoc; reflexivity |].
        split; [exact Hbest |]. split; [exact Hbefore |].
        intros c' Hin Hq. apply in_app_or in Hin. destruct Hin as [Hin|[<-|[]]].
        -- apply Hafter; assumption.
        -- exact Hcmp.
    + exists cands, []. split; [reflexivity |]. split; [exact Hc |].
      split; [| intros c' []].
      intros c' Hin Hq. rewrite (IH c' Hin) in Hq. discriminate Hq.
  - destruct (fold_left PickSpec.consider cands None) as [best|].
    + destruct IH as (before & after & Hsplit & Hbest & Hbefore & Hafter).
      exists before, (after ++ [c]).
      split; [rewrite Hsplit, <- app_assoc; reflexivity |].
      split; [exact Hbest |]. split; [exact Hbefore |].
      intros c' Hin Hq. apply in_app_or in Hin. destruct Hin as [Hin|[<-|[]]].
      * apply Hafter; assumption.
      * rewrite Hc in Hq. discriminate Hq.
    + intros c' Hin. apply in_app_or in Hin. destruct Hin as [Hin|[<-|[]]].
      * apply IH, Hin.
      * exact Hc.
Qed.

Lemma firstLargest_In (cands : list BestProp) (best : BestProp) :
  PickSpec.firstLargest cands best -> In best cands /\ PickSpec.qualifies best = true.
Proof.
  intros (before & after & -> & Hbest & _). split; [| exact Hbest].
  apply in_or_app. right. left. reflexivity.
Qed.

(** The result of the scan, by whether some pair qualifies. *)
Lemma findBestProp_spec (all : list TeamPlayerProjection) :
  ((forall c, In c (PickSpec.scanned all) -> PickSpec.qualifies c = false) ->
     findBestProp all = None) /\
  ((exists c, In c (PickSpec.scanned all) /\ PickSpec.qualifies c = true) ->
     exists best, findBestProp all = Some best /\
       PickSpec.firstLargest (PickSpec.scanned all) best).
Proof.
  rewrite findBestProp_scanned.
  pose proof (consider_fold_spec (PickSpec.scanned all)) as Hspec.
  destruct (fold_left PickSpec.consider (PickSpec.scanned all) None) as [best|].
  - split.
    + intros Hnone. destruct (firstLargest_In _ _ Hspec) as [Hin Hq].
      rewrite (Hnone best Hin) in Hq. discriminate Hq.
    + intros _. exists best. auto.
  - split; [reflexivity |].
    intros (c & Hin & Hq). rewrite (Hspec c Hin) in Hq. discriminate Hq.
Qed.







(** *** The priority order of the daily pick *)




(** *** The win probability *)

(** X15. The home win probability is between 20 and 80 whatever the rosters
    are, with a home advantage of 4 points; it is 54 when the three first
    players of both teams have no points in total (empty rosters too), and
    at least 54 whenever the home three score at least as much as the away
    three, an away side without points included. *)
Theorem win_probability_range (home away : list TeamPlayer.t) :
  let w := calculateWinProbability home away in
  20 <= homeWinProb w <= 80 /\
  homeAdvantage w == 4 /\
  (top3Ppg home + top3Ppg away <= 0 -> homeWinProb w == 54) /\
  (top3Ppg away <= top3Ppg home -> 54 <= homeWinProb w).
Proof.
  cbv zeta. unfold calculateWinProbability. cbn [homeWinProb homeAdvantage].
  set (h := top3Ppg home). set (a := top3Ppg away).
  set (raw := if Qltb 0 (h + a) then h / (h + a) else 0.5).
  assert (Hclamp : forall x, 0.20 <= Qmax 0.20 (Qmin 0.80 x) <= 0.80).
  { intros x. split; [apply Q.le_max_l |].
    apply Q.max_lub; [discriminate | apply Q.le_min_l]. }
  assert (Hkeep : forall x, 0.20 <= x <= 0.80 -> Qmax 0.20 (Qmin 0.80 x) == x).
  { intros x [Hlow Hhigh]. rewrite (Q.min_r 0.80 x Hhigh). apply Q.max_r, Hlow. }
  assert (Hmono : forall x, 0.54 <= x -> 0.54 <= Qmax 0.20 (Qmin 0.80 x)).
  { intros x Hx. apply Qle_trans with (Qmin 0.80 x); [| apply Q.le_max_r].
    apply Q.min_glb; [discriminate | exact Hx]. }
  split; [| split; [reflexivity | split]].
  - destruct (Hclamp (raw + 0.04)). split; lra.
  - intros Hzero. subst raw.
    assert (Hguard : Qltb 0 (h + a) = false) by (apply Qltb_ge; exact Hzero).
    rewrite Hguard, Hkeep; [reflexivity | split; discriminate].
  - intros Hhome. subst raw.
    destruct (Qltb 0 (h + a)) eqn:Hguard.
    + apply Qltb_lt in Hguard.
      assert (Hhalf : 0.5 <= h / (h + a)) by (apply Qle_shift_div_l; lra).
      pose proof (Hmono (h / (h + a) + 0.04)) as Hbound.
      assert (Hraw : 0.54 <= h / (h + a) + 0.04) by lra.
      specialize (Hbound Hraw). lra.
    + pose proof (Hmono (0.5 + 0.04)) as Hbound.
      assert (Hraw : 0.54 <= 0.5 + 0.04) by discriminate.
      specialize (Hbound Hraw). lra.
Qed.

Lemma win_probability_range_witness :
  let home := [{| TeamPlayer.id := "h1"; TeamPlayer.name := "Hal";
                  TeamPlayer.position := "G"; TeamPlayer.ppg := 25;
                  TeamPlayer.apg := 5; TeamPlayer.rpg := 4; TeamPlayer.tpg := None |}] in
  let away := [{| TeamPlayer.id := "a1"; TeamPlayer.name := "Abe";
                  TeamPlayer.position := "F"; TeamPlayer.ppg := 20;
                  TeamPlayer.apg := 3; TeamPlayer.rpg := 8; TeamPlayer.tpg := None |}] in
  top3Ppg away <= top3Ppg home /\
  54 <= homeWinProb (calculateWinProbability home away) /\
  54 <= homeWinProb (calculateWinProbability home []).
Proof.
  intros home away.
  assert (Hhome : top3Ppg away <= top3Ppg home) by discriminate.
  assert (Hnone : top3Ppg [] <= top3Ppg home) by discriminate.
  split; [exact Hhome |].
  split; [exact (proj2 (proj2 (proj2 (win_probability_range home away))) Hhome) |].
  exact (proj2 (proj2 (proj2 (win_probability_range home []))) Hnone).
Defined.

(** *** The picks that the daily pick can return *)

Lemma Qround_fixed_lower (k : Z) (x : Q) :
  0 <= x -> inject_Z k / 10 <= x -> inject_Z k / 10 <= Qround_fixed 1 x.
Proof.
  intros Hpos Hk. unfold Qround_fixed, fixed_units.
  assert (Hsign : Qltb x 0 = false) by (apply Qltb_ge; exact Hpos).
  rewrite Hsign. change (inject_Z (10 ^ Z.of_nat 1)) with 10.
  assert (Hfloor : (k <= Qfloor (Qabs x * 10 + 0.5))%Z).
  { rewrite <- (Qfloor_Z k). apply Qfloor_resp_le.
    rewrite (Qabs_pos x Hpos). lra_div. }
  rewrite Zle_Qle in Hfloor.
  set (n := inject_Z (Qfloor (Qabs x * 10 + 0.5))) in *.
  set (c := inject_Z k) in *. lra_div.
Qed.

Lemma Math_round_lower (k : Z) (x : Q) :
  inject_Z k <= x -> (k <= Math_round x)%Z.
Proof.
  intros Hk. unfold Math_round. rewrite <- (Qfloor_Z k). apply Qfloor_resp_le. lra.
Qed.

(** The best prop of the scan qualifies. *)
Lemma findBestProp_qualifies (all : list TeamPlayerProjection) (best : BestProp) :
  findBestProp all = Some best ->
  In best (PickSpec.scanned all) /\ 12 <= Qabs (bestEdge best).
Proof.
  intros Hfound. rewrite findBestProp_scanned in Hfound.
  pose proof (consider_fold_spec (PickSpec.scanned all)) as Hspec.
  rewrite Hfound in Hspec. destruct (firstLargest_In _ _ Hspec) as [Hin Hq].
  split; [exact Hin |]. apply Qleb_le, Hq.
Qed.

(** X16. Every pick that [generateDailyPick] returns has a confidence score
    between 7 and 10, and an edge percentage of at least 12 for a prop
    pick and at least 8 for a moneyline pick. *)
Theorem pick_confidence_range (home away : list PlayerProjection)
    (homeAlias awayAlias : string) (homeWinProb : Q) (pick : DailyPick.t) :
  generateDailyPick home away homeAlias awayAlias homeWinProb = Some pick ->
  (7 <= DailyPick.confidenceScore pick <= 10)%Z /\
  (DailyPick.type pick = DailyPick.moneyline_value -> 8 <= DailyPick.edgePercentage pick) /\
  (DailyPick.type pick <> DailyPick.moneyline_value -> 12 <= DailyPick.edgePercentage pick).
Proof.
  assert (Hmoney : forall alias winProb impliedProb sideEdge odd,
            8 <= sideEdge ->
            let p := moneylinePick alias winProb impliedProb sideEdge odd in
            (7 <= DailyPick.confidenceScore p <= 10)%Z /\
            8 <= DailyPick.edgePercentage p).
  { intros alias winProb impliedProb sideEdge odd Hedge. cbv zeta.
    unfold moneylinePick. cbn [DailyPick.confidenceScore DailyPick.edgePercentage].
    pose proof (Math_round_lower 7 (5 + sideEdge / 4)) as Hround.
    assert (Hseven : inject_Z 7 <= 5 + sideEdge / 4).
    { change (inject_Z 7) with 7. lra_div. }
    specialize (Hround Hseven). split; [lia |].
    apply Qle_trans with (inject_Z 80 / 10); [discriminate |].
    apply (Qround_fixed_lower 80 sideEdge); [lra |].
    apply Qle_trans with 8; [discriminate | exact Hedge]. }
  unfold generateDailyPick.
  destruct (findBestProp (allProjections home away homeAlias awayAlias))
    as [best|] eqn:Hfound.
  - intros [= <-]. destruct (findBestProp_qualifies _ _ Hfound) as [_ Hq].
    unfold propPick.
    cbn [DailyPick.confidenceScore DailyPick.edgePercentage DailyPick.type].
    pose proof (Math_round_lower 7 (5 + Qabs (bestEdge best) / 5)) as Hround.
    assert (Hseven : inject_Z 7 <= 5 + Qabs (bestEdge best) / 5).
    { change (inject_Z 7) with 7. lra_div. }
    specialize (Hround Hseven). split; [lia |]. split.
    + destruct (bestType best); discriminate.
    + intros _. apply Qle_trans with (inject_Z 120 / 10); [discriminate |].
      apply (Qround_fixed_lower 120 (Qabs (bestEdge best))); [lra |].
      apply Qle_trans with 12; [discriminate | exact Hq].
  - unfold MONEYLINE_EDGE_THRESHOLD.
    destruct (Qleb 8 (homeEdge homeWinProb)) eqn:Hhome.
    + intros [= <-]. apply Qleb_le in Hhome.
      destruct (Hmoney homeAlias homeWinProb (homeImpliedProb homeWinProb)
                  (homeEdge homeWinProb)
                  (if Qleb 60 homeWinProb then 1.65 else 1.85) Hhome) as [Hc He].
      split; [exact Hc |]. split; [intros _; exact He |].
      intros Hne. exfalso. apply Hne. reflexivity.
    + destruct (Qleb 8 (awayEdge homeWinProb)) eqn:Haway; [| discriminate].
      intros [= <-]. apply Qleb_le in Haway.
      destruct (Hmoney awayAlias (100 - homeWinProb) (awayImpliedProb homeWinProb)
                  (awayEdge homeWinProb)
                  (if Qleb 60 (100 - homeWinProb) then 1.65 else 2.10) Haway) as [Hc He].
      split; [exact Hc |]. split; [intros _; exact He |].
      intros Hne. exfalso. apply Hne. reflexivity.
Qed.

Lemma pick_confidence_range_witness :
  let home := [PickSpec.withEdges "Ann" 14 0 0 0] in
  exists pick,
    generateDailyPick home [] "HOM" "AWY" 52 = Some pick /\
    (7 <= DailyPick.confidenceScore pick <= 10)%Z.
Proof.
  intros home.
  assert (Hpick : exists pick, generateDailyPick home [] "HOM" "AWY" 52 = Some pick)
    by (eexists; reflexivity).
  destruct Hpick as (pick & Hpick). exists pick. split; [exact Hpick |].
  exact (proj1 (pick_confidence_range home [] "HOM" "AWY" 52 pick Hpick)).
Defined.

(** X17. The moneyline pick by the home win probability, when no scanned
    pair qualifies: the home side at 66 per cent or above, always at the
    odd 1.65 (the odd 1.85 is never used); the away side at 37 per cent or
    below, at 1.65, and at exactly 50 per cent, at 2.10; no pick between
    37 and 50 and between 50 and 66. *)
Theorem moneyline_bands (home away : list PlayerProjection)
    (homeAlias awayAlias : string) (homeWinProb : Q) :
  (forall c, In c (PickSpec.scanned (allProjections home away homeAlias awayAlias)) ->
     PickSpec.qualifies c = false) ->
  let pick := generateDailyPick home away homeAlias awayAlias homeWinProb in
  let sidePick (alias : string) (odd : Q) :=
    exists p, pick = Some p /\
      DailyPick.type p = DailyPick.moneyline_value /\
      DailyPick.teamAlias p = Some alias /\
      DailyPick.bookmakerOdd p = odd in
  (66 <= homeWinProb -> sidePick homeAlias 1.65) /\
  (homeWinProb == 50 -> sidePick awayAlias 2.10) /\
  (homeWinProb <= 37 -> sidePick awayAlias 1.65) /\
  (37 < homeWinProb < 50 \/ 50 < homeWinProb < 66 -> pick = None).
Proof.
  intros Hnone. cbv zeta.
  unfold generateDailyPick.
  rewrite (proj1 (findBestProp_spec (allProjections home away homeAlias awayAlias)) Hnone).
  unfold MONEYLINE_EDGE_THRESHOLD, homeEdge, awayEdge, awayImpliedProb, homeImpliedProb.
  split; [| split; [| split]].
  - intros Hhp.
    assert (H50 : Qleb 50 homeWinProb = true) by (apply Qleb_le; lra).
    assert (H60 : Qleb 60 homeWinProb = true) by (apply Qleb_le; lra).
    rewrite H50.
    assert (H8 : Qleb 8 (homeWinProb - 58) = true) by (apply Qleb_le; lra).
    rewrite H8, H60. eexists. split; [reflexivity |]. repeat split.
  - intros Hhp.
    assert (H50 : Qleb 50 homeWinProb = true) by (apply Qleb_le; lra).
    rewrite H50.
    assert (H8 : Qleb 8 (homeWinProb - 58) = false) by (apply Qleb_gt; lra).
    assert (H8' : Qleb 8 (100 - homeWinProb - (100 - 58)) = true) by (apply Qleb_le; lra).
    assert (H60 : Qleb 60 (100 - homeWinProb) = false) by (apply Qleb_gt; lra).
    rewrite H8, H8', H60. eexists. split; [reflexivity |]. repeat split.
  - intros Hhp.
    assert (H50 : Qleb 50 homeWinProb = false) by (apply Qleb_gt; lra).
    rewrite H50.
    assert (H8 : Qleb 8 (homeWinProb - 45) = false) by (apply Qleb_gt; lra).
    assert (H8' : Qleb 8 (100 - homeWinProb - (100 - 45)) = true) by (apply Qleb_le; lra).
    assert (H60 : Qleb 60 (100 - homeWinProb) = true) by (apply Qleb_le; lra).
    rewrite H8, H8', H60. eexists. split; [reflexivity |]. repeat split.
  - intros [[Hlow Hhigh] | [Hlow Hhigh]].
    + assert (H50 : Qleb 50 homeWinProb = false) by (apply Qleb_gt; lra).
      rewrite H50.
      assert (H8 : Qleb 8 (homeWinProb - 45) = false) by (apply Qleb_gt; lra).
      assert (H8' : Qleb 8 (100 - homeWinProb - (100 - 45)) = false)
        by (apply Qleb_gt; lra).
      rewrite H8, H8'. reflexivity.
    + assert (H50 : Qleb 50 homeWinProb = true) by (apply Qleb_le; lra).
      rewrite H50.
      assert (H8 : Qleb 8 (homeWinProb - 58) = false) by (apply Qleb_gt; lra).
      assert (H8' : Qleb 8 (100 - homeWinProb - (100 - 58)) = false)
        by (apply Qleb_gt; lra).
      rewrite H8, H8'. reflexivity.
Qed.

(** An even game: the away side is picked, at 2.10. *)
Lemma moneyline_bands_witness :
  exists p,
    generateDailyPick [] [] "HOM" "AWY" 50 = Some p /\
    DailyPick.type p = DailyPick.moneyline_value /\
    DailyPick.teamAlias p = Some "AWY" /\
    DailyPick.bookmakerOdd p = 2.10.
Proof.
  assert (Hnone : forall c,
            In c (PickSpec.scanned (allProjections [] [] "HOM" "AWY")) ->
            PickSpec.qualifies c = false) by (intros c []).
  destruct (moneyline_bands [] [] "HOM" "AWY" 50 Hnone) as (_ & Heven & _).
  apply Heven. reflexivity.
Defined.

(** X18. A prop pick is about a player of one of the two lists and carries
    the alias of the team of that list: it is the pick made from one of the
    scanned statistics of that player. *)
Theorem prop_pick_names_listed_player (home away : list PlayerProjection)
    (homeAlias awayAlias : string) (homeWinProb : Q) (pick : DailyPick.t) :
  generateDailyPick home away homeAlias awayAlias homeWinProb = Some pick ->
  DailyPick.type pick <> DailyPick.moneyline_value ->
  exists q stat alias,
    (In q home /\ alias = homeAlias \/ In q away /\ alias = awayAlias) /\
    pick = propPick (PickSpec.candidate {| player := q; teamAlias := alias |} stat) /\
    DailyPick.playerName pick = Some (playerName q) /\
    DailyPick.teamAlias pick = Some alias.
Proof.
  unfold generateDailyPick.
  destruct (findBestProp (allProjections home away homeAlias awayAlias))
    as [best|] eqn:Hfound.
  - intros [= <-] _. destruct (findBestProp_qualifies _ _ Hfound) as [Hin _].
    unfold PickSpec.scanned in Hin. apply in_flat_map in Hin.
    destruct Hin as (p & Hp & Hstat).
    assert (Hbest : exists stat, best = PickSpec.candidate p stat).
    { destruct Hstat as [<-|[<-|[<-|[]]]]; eexists; reflexivity. }
    destruct Hbest as (stat & ->).
    unfold allProjections in Hp. apply in_app_or in Hp.
    destruct Hp as [Hp|Hp]; apply in_map_iff in Hp; destruct Hp as (q & <- & Hq).
    + exists q, stat, homeAlias. split; [left; auto |]. repeat split.
    + exists q, stat, awayAlias. split; [right; auto |]. repeat split.
  - intros Hpick Htype. exfalso. apply Htype.
    destruct (Qleb MONEYLINE_EDGE_THRESHOLD (homeEdge homeWinProb));
      [injection Hpick as <-; reflexivity |].
    destruct (Qleb MONEYLINE_EDGE_THRESHOLD (awayEdge homeWinProb));
      [injection Hpick as <-; reflexivity | discriminate Hpick].
Qed.

Lemma prop_pick_names_listed_player_witness :
  let away := [PickSpec.withEdges "Bea" 0 15 0 0] in
  exists pick,
    generateDailyPick [] away "HOM" "AWY" 52 = Some pick /\
    DailyPick.playerName pick = Some "Bea" /\
    DailyPick.teamAlias pick = Some "AWY".
Proof.
  intros away.
  assert (Hpick : exists pick, generateDailyPick [] away "HOM" "AWY" 52 = Some pick /\
                    DailyPick.type pick <> DailyPick.moneyline_value).
  { eexists. split; [reflexivity | discriminate]. }
  destruct Hpick as (pick & Hpick & Htype). exists pick. split; [exact Hpick |].
  destruct (prop_pick_names_listed_player [] away "HOM" "AWY" 52 pick Hpick Htype)
    as (q & stat & alias & [[[] _] | [[<-|[]] ->]] & _ & Hname & Halias).
  split; [exact Hname | exact Halias].
Defined.

(** *** The generated projections *)

Lemma fixed_units_nonneg (x : Q) : (0 <= fixed_units 1 (Qabs x))%Z.
Proof.
  unfold fixed_units. change (inject_Z (10 ^ Z.of_nat 1)) with 10.
  rewrite <- (Qfloor_Z 0). apply Qfloor_resp_le.
  pose proof (Qabs_nonneg x). change (inject_Z 0) with 0. lra.
Qed.

(** The absolute value of the rounded number is the rounded absolute
    value. *)
Lemma Qround_fixed_abs (x : Q) :
  Qabs (Qround_fixed 1 x) == inject_Z (fixed_units 1 (Qabs x)) / 10.
Proof.
  pose proof (fixed_units_nonneg x) as Hn. rewrite Zle_Qle in Hn.
  unfold Qround_fixed. change (inject_Z (10 ^ Z.of_nat 1)) with 10.
  set (n := inject_Z (fixed_units 1 (Qabs x))) in *. change (inject_Z 0) with 0 in Hn.
  assert (Hr : 0 <= n / 10) by lra_div.
  destruct (Qltb x 0); [rewrite Qabs_opp |]; apply Qabs_pos, Hr.
Qed.

(** The variance factor is between -15 and +14 per cent. *)
Lemma varianceFactor_range (name : string) :
  -0.15 <= varianceFactor name <= 0.14.
Proof.
  unfold varianceFactor.
  assert (Hmod : (nameHash name mod 30 < 30)%N) by (apply N.mod_lt; discriminate).
  pose proof (N2Z.is_nonneg (nameHash name mod 30)) as Hlow.
  apply N2Z.inj_lt in Hmod. change (Z.of_N 30) with 30%Z in Hmod.
  assert (Hhigh : (Z.of_N (nameHash name mod 30) <= 29)%Z)
    by (apply Z.lt_succ_r; exact Hmod).
  rewrite Zle_Qle in Hlow, Hhigh.
  set (r := inject_Z (Z.of_N (nameHash name mod 30))) in *.
  change (inject_Z 0) with 0 in Hlow. change (inject_Z 29) with 29 in Hhigh.
  split; lra_div.
Qed.

Lemma scaled_between (stat low high factor : Q) :
  0 <= stat -> low <= factor <= high ->
  stat * low <= stat * factor <= stat * high.
Proof.
  intros Hstat [Hlow Hhigh].
  split; rewrite !(Qmult_comm stat); apply Qmult_le_compat_r; assumption.
Qed.

(** A rounded number between two bounds, up to half a tenth. *)
Lemma Qround_fixed_between (low x high : Q) :
  low <= x <= high ->
  low - (0.05 + 0.000001) <= Qround_fixed 1 x <= high + (0.05 + 0.000001).
Proof.
  intros [Hlow Hhigh].
  pose proof (Qround_fixed_near x) as Hnear.
  apply Qabs_Qle_condition in Hnear. destruct Hnear as [Hbelow Habove].
  set (r := Qround_fixed 1 x) in *. clearbody r. split; lra.
Qed.

(** X19. The projections that [generatePlayerProjection] derives from the
    averages of a player (none of them negative) stay within the variance
    of the name hash, up to the rounding to one decimal (half a tenth,
    with the tolerance 1e-6): between 85 and 114 per cent of the points
    average, 88 and 111.2 per cent of the assists average and 89.5 and
    109.8 per cent of the rebounds average. *)
Theorem generated_projection_bounds (p : TeamPlayer.t) (playerIndex : Z) :
  0 <= TeamPlayer.ppg p -> 0 <= TeamPlayer.apg p -> 0 <= TeamPlayer.rpg p ->
  let pr := generatePlayerProjection p playerIndex in
  let slack := 0.05 + 0.000001 in
  TeamPlayer.ppg p * 0.85 - slack <= projection pr
    <= TeamPlayer.ppg p * 1.14 + slack /\
  TeamPlayer.apg p * 0.88 - slack <= assistsProjection pr
    <= TeamPlayer.apg p * 1.112 + slack /\
  TeamPlayer.rpg p * 0.895 - slack <= reboundsProjection pr
    <= TeamPlayer.rpg p * 1.098 + slack.
Proof.
  intros Hppg Hapg Hrpg. cbv zeta. unfold generatePlayerProjection.
  cbn [projection assistsProjection reboundsProjection].
  pose proof (varianceFactor_range (TeamPlayer.name p)) as [Hlow Hhigh].
  set (v := varianceFactor (TeamPlayer.name p)) in *.
  split; [| split]; apply Qround_fixed_between.
  - apply scaled_between; [exact Hppg | split; lra].
  - apply scaled_between; [exact Hapg | split; lra].
  - apply scaled_between; [exact Hrpg | split; lra].
Qed.

Lemma generated_projection_bounds_witness :
  let p := {| TeamPlayer.id := "p1"; TeamPlayer.name := "LeBron James";
              TeamPlayer.position := "F"; TeamPlayer.ppg := 25.3;
              TeamPlayer.apg := 7.2; TeamPlayer.rpg := 8.1; TeamPlayer.tpg := None |} in
  let pr := generatePlayerProjection p 0 in
  0 <= TeamPlayer.ppg p /\
  25.3 * 0.85 - (0.05 + 0.000001) <= projection pr <= 25.3 * 1.14 + (0.05 + 0.000001).
Proof.
  intros p pr.
  assert (Hppg : 0 <= TeamPlayer.ppg p) by discriminate.
  assert (Hapg : 0 <= TeamPlayer.apg p) by discriminate.
  assert (Hrpg : 0 <= TeamPlayer.rpg p) by discriminate.
  destruct (generated_projection_bounds p 0 Hppg Hapg Hrpg) as (Hpoints & _).
  split; [exact Hppg | exact Hpoints].
Defined.

(** X20. The confidence of a generated projection is at most 95; it is at
    least 70 for a points average that is not negative, and 95 from an
    average of 30 points on. *)
Theorem generated_confidence_range (p : TeamPlayer.t) (playerIndex : Z) :
  let c := confidence (generatePlayerProjection p playerIndex) in
  (c <= 95)%Z /\
  (0 <= TeamPlayer.ppg p -> (70 <= c)%Z) /\
  (30 <= TeamPlayer.ppg p -> c = 95%Z).
Proof.
  cbv zeta. unfold generatePlayerProjection. cbn [confidence].
  set (raw := 70 + TeamPlayer.ppg p / 30 * 25).
  assert (Hupper : (Math_round (Qmin 95 raw) <= 95)%Z).
  { unfold Math_round. apply Z.le_trans with (Qfloor 95.5); [| discriminate].
    apply Qfloor_resp_le. pose proof (Q.le_min_l 95 raw) as Hmin.
    set (m := Qmin 95 raw) in *. clearbody m. lra. }
  split; [exact Hupper | split].
  - intros Hppg. apply Math_round_lower. apply Q.min_glb; [discriminate |].
    subst raw. change (inject_Z 70) with 70. lra_div.
  - intros Hppg. assert (Hraw : 95 <= raw) by (subst raw; lra_div).
    pose proof (Math_round_lower 95 (Qmin 95 raw)) as Hlower.
    assert (inject_Z 95 <= Qmin 95 raw) by (apply Q.min_glb; [apply Qle_refl | exact Hraw]).
    specialize (Hlower H). lia.
Qed.

Lemma generated_confidence_range_witness :
  let p := {| TeamPlayer.id := "p1"; TeamPlayer.name := "LeBron James";
              TeamPlayer.position := "F"; TeamPlayer.ppg := 31.5;
              TeamPlayer.apg := 7.2; TeamPlayer.rpg := 8.1; TeamPlayer.tpg := None |} in
  30 <= TeamPlayer.ppg p /\ confidence (generatePlayerProjection p 2) = 95%Z.
Proof.
  intros p. assert (Hppg : 30 <= TeamPlayer.ppg p) by discriminate.
  split; [exact Hppg |].
  exact (proj2 (proj2 (generated_confidence_range p 2)) Hppg).
Defined.

Lemma Qround_fixed_qualifies (x : Q) :
  12 <= Qabs (Qround_fixed 1 x) -> 10 <= Qabs x.
Proof.
  rewrite Qround_fixed_abs. intros Hq.
  pose proof (Qfloor_le (Qabs x * inject_Z (10 ^ Z.of_nat 1) + 0.5)) as Hfloor.
  fold (fixed_units 1 (Qabs x)) in Hfloor.
  change (inject_Z (10 ^ Z.of_nat 1)) with 10 in Hfloor.
  set (n := inject_Z (fixed_units 1 (Qabs x))) in *.
  set (a := Qabs x) in *. lra_div.
Qed.

(** X21. A generated projection that qualifies for the prop pick of the day
    (an edge of points, assists or rebounds of 12 per cent or more in
    absolute value) carries the value-bet flag. *)
Theorem qualifying_projection_is_value_bet (p : TeamPlayer.t) (playerIndex : Z) :
  let pr := generatePlayerProjection p playerIndex in
  12 <= Qabs (edge pr) \/ 12 <= Qabs (assistsEdge pr) \/ 12 <= Qabs (reboundsEdge pr) ->
  isValueBet pr = true.
Proof.
  cbv zeta. unfold generatePlayerProjection.
  cbn [edge assistsEdge reboundsEdge isValueBet].
  intros [H | [H | H]]; apply Qround_fixed_qualifies, Qleb_le in H; rewrite H;
    rewrite ?orb_true_r; reflexivity.
Qed.

Lemma qualifying_projection_is_value_bet_witness :
  let p := {| TeamPlayer.id := "p1"; TeamPlayer.name := "LeBron James";
              TeamPlayer.position := "F"; TeamPlayer.ppg := 25.3;
              TeamPlayer.apg := 7.2; TeamPlayer.rpg := 8.1; TeamPlayer.tpg := None |} in
  edge (generatePlayerProjection p 0) = 13.2 /\
  isValueBet (generatePlayerProjection p 0) = true.
Proof.
  intros p. split; [reflexivity |].
  apply (qualifying_projection_is_value_bet p 0). left. discriminate.
Defined.

(** *** The players of a team from the statistics of the season *)

Lemma insertByPpg_perm (x : TeamPlayer.t) (l : list TeamPlayer.t) :
  Permutation (x :: l) (GameRoster.insertByPpg x l).
Proof.
  induction l as [|y l IH]; simpl; [reflexivity |].
  destruct (Qltb (TeamPlayer.ppg x) (TeamPlayer.ppg y)); [| reflexivity].
  rewrite perm_swap. apply perm_skip. exact IH.
Qed.

Lemma sortByPpg_perm (l : list TeamPlayer.t) :
  Permutation l (GameRoster.sortByPpg l).
Proof.
  induction l as [|x l IH]; simpl; [reflexivity |].
  rewrite <- insertByPpg_perm. apply perm_skip. exact IH.
Qed.

Lemma insertByPpg_sorted (x : TeamPlayer.t) (l : list TeamPlayer.t) :
  StronglySorted (fun a b => TeamPlayer.ppg b <= TeamPlayer.ppg a) l ->
  StronglySorted (fun a b => TeamPlayer.ppg b <= TeamPlayer.ppg a)
    (GameRoster.insertByPpg x l).
Proof.
  induction l as [|y l IH]; intros Hsorted; simpl.
  - constructor; constructor.
  - apply StronglySorted_inv in Hsorted. destruct Hsorted as [Hl Hy].
    destruct (Qltb (TeamPlayer.ppg x) (TeamPlayer.ppg y)) eqn:Hcmp.
    + apply Qltb_lt in Hcmp. constructor; [apply IH, Hl |].
      rewrite <- (Permutation_Forall (insertByPpg_perm x l)).
      constructor; [apply Qlt_le_weak, Hcmp | exact Hy].
    + apply Qltb_ge in Hcmp. constructor; [constructor; assumption |].
      constructor; [exact Hcmp |].
      eapply Forall_impl; [exact Hy |]. intros z Hz. simpl in Hz.
      apply Qle_trans with (TeamPlayer.ppg y); assumption.
Qed.

(** The entries of the statistics map that [seasonalStatsToPlayers]
    keeps, as players, in the order of the map. *)
Lemma fold_seasonalStep (reports : list Injury.t)
    (statsMap : list (string * GameRoster.PlayerSeasonalStats))
    (acc : list TeamPlayer.t) :
  fold_left (GameRoster.seasonalStep reports) statsMap acc =
  acc ++ map (fun e => GameRoster.seasonalPlayer (findInjury reports (fst e)) e)
           (List.filter (fun e => negb (isStatusOut (findInjury reports (fst e))))
              statsMap).
Proof.
  revert acc. induction statsMap as [|e statsMap IH]; intros acc; simpl.
  - symmetry. apply app_nil_r.
  - rewrite IH. unfold GameRoster.seasonalStep at 1.
    destruct (isStatusOut (findInjury reports (fst e))); simpl; [reflexivity |].
    rewrite <- app_assoc. reflexivity.
Qed.

Lemma seasonalStatsToPlayers_perm (injuries : list GameRoster.InjuryRow)
    (statsMap : list (string * GameRoster.PlayerSeasonalStats)) (team : string) :
  let reports := GameRoster.teamInjuries injuries team in
  Permutation
    (map (fun e => GameRoster.seasonalPlayer (findInjury reports (fst e)) e)
       (List.filter (fun e => negb (isStatusOut (findInjury reports (fst e))))
          statsMap))
    (GameRoster.seasonalStatsToPlayers injuries statsMap team).
Proof.
  cbv zeta. unfold GameRoster.seasonalStatsToPlayers. rewrite fold_seasonalStep.
  simpl. apply sortByPpg_perm.
Qed.

(** X22. The players that [seasonalStatsToPlayers] returns are listed by
    descending points per game, and they are the entries of the statistics
    map whose player has no [Out] report among the reports of the team:
    the list is a rearrangement of the players built from these entries,
    so no entry is lost or doubled by the sort. *)
Theorem seasonal_players_sorted_and_complete (injuries : list GameRoster.InjuryRow)
    (statsMap : list (string * GameRoster.PlayerSeasonalStats)) (team : string) :
  let reports := GameRoster.teamInjuries injuries team in
  let result := GameRoster.seasonalStatsToPlayers injuries statsMap team in
  StronglySorted (fun a b => TeamPlayer.ppg b <= TeamPlayer.ppg a) result /\
  Permutation
    (map (fun e => GameRoster.seasonalPlayer (findInjury reports (fst e)) e)
       (List.filter (fun e => negb (isStatusOut (findInjury reports (fst e))))
          statsMap))
    result.
Proof.
  cbv zeta. split; [| apply seasonalStatsToPlayers_perm].
  unfold GameRoster.seasonalStatsToPlayers.
  set (l := fold_left _ _ _). clearbody l.
  induction l as [|x l IH]; simpl; [constructor |].
  apply insertByPpg_sorted, IH.
Qed.

(** X23. No player of the list of [seasonalStatsToPlayers] has an [Out]
    report among the reports of the team; the player comes from an entry
    of the statistics map, with its points per game and with no position,
    and carries the warning sign at the end of the name exactly when the
    report found is day-to-day. *)
Theorem seasonal_players_never_out (injuries : list GameRoster.InjuryRow)
    (statsMap : list (string * GameRoster.PlayerSeasonalStats)) (team : string)
    (q : TeamPlayer.t) :
  In q (GameRoster.seasonalStatsToPlayers injuries statsMap team) ->
  let injury := findInjury (GameRoster.teamInjuries injuries team) (TeamPlayer.id q) in
  isStatusOut injury = false /\
  exists stats, In (TeamPlayer.id q, stats) statsMap /\
    TeamPlayer.ppg q = GameRoster.ppg stats /\
    TeamPlayer.position q = "N/A" /\
    TeamPlayer.name q =
      if isDayToDay injury then GameRoster.name stats +:+ " ⚠️"
      else GameRoster.name stats.
Proof.
  intros Hin. cbv zeta.
  apply (Permutation_in _ (Permutation_sym (seasonalStatsToPlayers_perm injuries statsMap team)))
    in Hin.
  apply in_map_iff in Hin. destruct Hin as (e & <- & He).
  apply filter_In in He. destruct He as [He Hout].
  apply negb_true_iff in Hout. simpl. split; [exact Hout |].
  exists (snd e). split; [destruct e; exact He |]. repeat split.
Qed.

Lemma seasonal_players_never_out_witness :
  let injuries :=
    [ {| GameRoster.teamId := "BOS"; GameRoster.report := Sample.report "a" Injury.Out |};
      {| GameRoster.teamId := "BOS"; GameRoster.report := Sample.report "b" Injury.DayToDay |} ] in
  let stats (n : string) (p : Q) :=
    {| GameRoster.name := n; GameRoster.ppg := p; GameRoster.apg := 1;
       GameRoster.rpg := 1; GameRoster.tpg := 1; GameRoster.mpg := 30 |} in
  let statsMap := [("a", stats "Ann" 30); ("b", stats "Bob" 10); ("c", stats "Cy" 20)] in
  let bob := GameRoster.seasonalPlayer (Some (Sample.report "b" Injury.DayToDay))
               ("b", stats "Bob" 10) in
  In bob (GameRoster.seasonalStatsToPlayers injuries statsMap "BOS") /\
  isStatusOut (findInjury (GameRoster.teamInjuries injuries "BOS") (TeamPlayer.id bob))
    = false.
Proof.
  intros injuries stats statsMap bob.
  assert (Hin : In bob (GameRoster.seasonalStatsToPlayers injuries statsMap "BOS"))
    by (right; left; reflexivity).
  split; [exact Hin |].
  exact (proj1 (seasonal_players_never_out injuries statsMap "BOS" bob Hin)).
Defined.

(** *** The roster without its players that are out *)

Lemma teamInjuries_other_team (before after : list GameRoster.InjuryRow)
    (row : GameRoster.InjuryRow) (team : string) :
  GameRoster.teamId row <> team ->
  GameRoster.teamInjuries (before ++ row :: after) team =
  GameRoster.teamInjuries (before ++ after) team.
Proof.
  intros Hteam. unfold GameRoster.teamInjuries.
  rewrite !List.filter_app. simpl.
  destruct (String.eqb_spec (GameRoster.teamId row) team) as [Heq | _];
    [contradiction | reflexivity].
Qed.

(** X24. A report filed under another team has no effect on the players of
    a team: neither list changes when such a report is added anywhere in
    the injury report, whatever player it names. A player who is out but
    whose report carries another team's id therefore stays in the list. *)
Theorem other_team_reports_are_ignored (before after : list GameRoster.InjuryRow)
    (row : GameRoster.InjuryRow) (team : string)
    (roster : option GameRoster.TeamRoster)
    (statsMap : list (string * GameRoster.PlayerSeasonalStats)) :
  GameRoster.teamId row <> team ->
  GameRoster.filterRosterInjuries (before ++ row :: after) roster team =
    GameRoster.filterRosterInjuries (before ++ after) roster team /\
  GameRoster.seasonalStatsToPlayers (before ++ row :: after) statsMap team =
    GameRoster.seasonalStatsToPlayers (before ++ after) statsMap team.
Proof.
  intros Hteam.
  unfold GameRoster.filterRosterInjuries, GameRoster.seasonalStatsToPlayers.
  rewrite (teamInjuries_other_team before after row team Hteam).
  split; reflexivity.
Qed.

Lemma other_team_reports_are_ignored_witness :
  let row := {| GameRoster.teamId := "LAL"; GameRoster.report := Sample.report "a" Injury.Out |} in
  let roster := Some {| GameRoster.rosterTeamId := "BOS"; GameRoster.teamName := "Celtics";
                        GameRoster.alias := "BOS";
                        GameRoster.players :=
                          [{| TeamPlayer.id := "a"; TeamPlayer.name := "Ann";
                              TeamPlayer.position := "G"; TeamPlayer.ppg := 30;
                              TeamPlayer.apg := 5; TeamPlayer.rpg := 5;
                              TeamPlayer.tpg := None |}] |} in
  GameRoster.teamId row <> "BOS" /\
  map TeamPlayer.id (GameRoster.filterRosterInjuries ([] ++ row :: []) roster "BOS") = ["a"].
Proof.
  intros row roster.
  assert (Hteam : GameRoster.teamId row <> "BOS") by discriminate.
  split; [exact Hteam |].
  rewrite (proj1 (other_team_reports_are_ignored [] [] row "BOS" roster [] Hteam)).
  reflexivity.
Defined.
